(** * kcloud-cost-estimator: the Kepler metrics client and the cost derivation

    A shallow embedding of [src/kepler_client/client.py] (class [KeplerClient])
    and of the cost calculator that [src/main.py] constructs, with the
    properties of the metric correlation passes, the duration parser, the
    health probe and the cost formula.

    Python values are modelled as follows.
    - [float] is the kernel's binary64 [PrimFloat.float]; [int] is [Z];
      [str] is [string]; a label dict ([series["metric"]]) is a
      [gmap string string].
    - An insertion-ordered [dict] whose order is observable
      ([containers_map], [queries]) is an association list in insertion
      order.
    - A raised exception is the [Raise] outcome of the [result] type; the
      logger's output is carried along by the [io] writer.
    - The metrics backend is a function from the request to the reply; the
      coroutines are run one after the other, as the client awaits each call
      before the next.  Cancellation of a coroutine is not modelled. *)

From Stdlib Require Import ZArith Ascii String Floats.PrimFloat.
From stdpp Require Import base tactics option list gmap strings.

Local Open Scope string_scope.
Local Open Scope list_scope.
Local Open Scope Z_scope.

(** ** Exceptions, results and logging *)

(** The exception classes that the modelled code can meet.  All of them are
    subclasses of Python's [Exception], so an [except Exception] clause
    catches every value of this type.  [ClientConnectionError],
    [ClientResponseError] and [ContentTypeError] are subclasses of
    [aiohttp.ClientError]; the others are not. *)
Inductive exn : Type :=
  | ClientConnectionError
  | ClientResponseError (status : Z)
  | ContentTypeError
  | TimeoutError
  | JSONDecodeError
  | ValueError
  | OverflowError
  | IndexError
  | AttributeError.

Definition is_client_error (e : exn) : bool :=
  match e with
  | ClientConnectionError | ClientResponseError _ | ContentTypeError => true
  | _ => false
  end.

Inductive result (A : Type) : Type :=
  | Return (a : A)
  | Raise (e : exn).
Arguments Return {A} a.
Arguments Raise {A} e.

Definition rbind {A B} (r : result A) (f : A → result B) : result B :=
  match r with
  | Return a => f a
  | Raise e => Raise e
  end.

Inductive level : Type := INFO | WARNING | ERROR.

(** What a log line is about; the f-string texts are kept structured. *)
Inductive message : Type :=
  | QueryFailed (query : string) (e : exn)
  | HealthCheckFailed (e : exn)
  | ContainerCollectionCompleted (n : nat)
  | ContainerCollectionFailed (e : exn)
  | AllContainerCollectionCompleted (n : nat)
  | AllContainerCollectionFailed (e : exn)
  | NodeCollectionCompleted (n : nat)
  | NodeCollectionFailed (e : exn)
  | NodeComponentFailed (component : string) (e : exn).

Definition log_entry : Type := level * message.

(** A computation that may raise and that appends to the log. *)
Definition io (A : Type) : Type := result A * list log_entry.

Definition ret {A} (a : A) : io A := (Return a, []).
Definition raise {A} (e : exn) : io A := (Raise e, []).
Definition lift {A} (r : result A) : io A := (r, []).
Definition log (l : level) (m : message) : io unit := (Return tt, [(l, m)]).

Definition bind {A B} (m : io A) (f : A → io B) : io B :=
  match m.1 with
  | Return a => let r := f a in (r.1, m.2 ++ r.2)
  | Raise e => (Raise e, m.2)
  end.

(** [try: m  except Exception as e: h e] *)
Definition try_except {A} (m : io A) (h : exn → io A) : io A :=
  match m.1 with
  | Return a => m
  | Raise e => let r := h e in (r.1, m.2 ++ r.2)
  end.

Notation "'let*' x := m 'in' k" := (bind m (λ x, k))
  (at level 10, x name, m at level 100, k at level 200).
Notation "'let*' ' p := m 'in' k" := (bind m (λ p, k))
  (at level 10, p pattern, m at level 100, k at level 200).
Notation "'let?' x := m 'in' k" := (rbind m (λ x, k))
  (at level 10, x name, m at level 100, k at level 200).

(** [for x in l: s = body x s], stopping at the first exception. *)
Fixpoint for_result {A S} (l : list A) (body : A → S → result S) (s : S)
  : result S :=
  match l with
  | [] => Return s
  | x :: l' => rbind (body x s) (for_result l' body)
  end.

Fixpoint for_io {A S} (l : list A) (body : A → S → io S) (s : S) : io S :=
  match l with
  | [] => ret s
  | x :: l' => bind (body x s) (for_io l' body)
  end.

(** ** Python strings and integers *)

(** [s.endswith(c)] for a one-character [c]. *)
Fixpoint endswith (s : string) (c : ascii) : bool :=
  match s with
  | EmptyString => false
  | String a EmptyString => bool_decide (a = c)
  | String _ s' => endswith s' c
  end.

(** [s[:-1]] *)
Fixpoint drop_last (s : string) : string :=
  match s with
  | EmptyString => EmptyString
  | String _ EmptyString => EmptyString
  | String a s' => String a (drop_last s')
  end.

(** The characters [int()] strips from both ends (ASCII white space). *)
Definition is_space (a : ascii) : bool :=
  let n := Z.of_nat (nat_of_ascii a) in
  ((9 <=? n) && (n <=? 13)) || ((28 <=? n) && (n <=? 32)).

Definition digit_of (a : ascii) : option Z :=
  let n := Z.of_nat (nat_of_ascii a) in
  if (48 <=? n) && (n <=? 57) then Some (n - 48) else None.

Fixpoint lstrip (s : string) : string :=
  match s with
  | String a s' => if is_space a then lstrip s' else s
  | EmptyString => EmptyString
  end.

(** The digits of a decimal literal: digits with single underscores between
    them.  [prev] tells whether the previous character was a digit; trailing
    white space may follow the last digit. *)
Fixpoint digits (acc : Z) (prev : bool) (s : string) : option Z :=
  match s with
  | EmptyString => if prev then Some acc else None
  | String a s' =>
      match digit_of a with
      | Some d => digits (10 * acc + d) true s'
      | None =>
          if prev && bool_decide (a = "_"%char) then digits acc false s'
          else if prev && bool_decide (lstrip s = EmptyString) then Some acc
          else None
      end
  end.

(** [int(s)] on a string, base 10: optional white space, an optional sign,
    then the digits.  Only ASCII is interpreted: a code point above 127 is
    never a digit or white space here. *)
Definition py_int (s : string) : result Z :=
  let body :=
    match lstrip s with
    | String "-" s' => (fun z => - z) <$> digits 0 false s'
    | String "+" s' => digits 0 false s'
    | s' => digits 0 false s'
    end in
  match body with
  | Some z => Return z
  | None => Raise ValueError
  end.

(** ** [datetime.timedelta] *)

(** A timedelta in Python's normal form: [0 <= seconds < 86400], and
    [-999999999 <= days <= 999999999]. *)
Record timedelta : Type := Timedelta { td_days : Z; td_seconds : Z }.

Definition timedelta_of_seconds (secs : Z) : result timedelta :=
  let d := secs / 86400 in
  if (-999999999 <=? d) && (d <=? 999999999)
  then Return (Timedelta d (secs mod 86400))
  else Raise OverflowError.

Definition timedelta_minutes (n : Z) : result timedelta :=
  timedelta_of_seconds (60 * n).
Definition timedelta_hours (n : Z) : result timedelta :=
  timedelta_of_seconds (3600 * n).
Definition timedelta_days (n : Z) : result timedelta :=
  timedelta_of_seconds (86400 * n).

(** ** [KeplerClient._parse_time_range] *)

Definition _parse_time_range (time_range : string) : result timedelta :=
  if endswith time_range "m" then
    rbind (py_int (drop_last time_range)) timedelta_minutes
  else if endswith time_range "h" then
    rbind (py_int (drop_last time_range)) timedelta_hours
  else if endswith time_range "d" then
    rbind (py_int (drop_last time_range)) timedelta_days
  else timedelta_minutes 5.

(** ** Floats, timestamps and the JSON of a query response *)

(** A JSON scalar of a sample as Python's [float()] reads it: [Numeric x]
    stands for a number, or a numeric string, that converts to [x];
    [NonNumeric] for a value on which [float()] raises. *)
Inductive scalar : Type :=
  | Numeric (x : float)
  | NonNumeric.

Definition py_float (s : scalar) : result float :=
  match s with
  | Numeric x => Return x
  | NonNumeric => Raise ValueError
  end.

(** [l[i]] for [i >= 0]. *)
Definition py_index {A} (l : list A) (i : nat) : result A :=
  match l !! i with
  | Some a => Return a
  | None => Raise IndexError
  end.

(** A [datetime] is kept as the POSIX time it was built from. *)
Definition datetime : Type := float.

(** [datetime.fromtimestamp(x)]: not-a-number and the infinities are refused,
    and so is a time outside the years 1 to 9999 (the local zone is taken to
    be UTC; the rounding to microseconds is not modelled). *)
Definition fromtimestamp (x : float) : result datetime :=
  if PrimFloat.is_nan x then Raise ValueError
  else if PrimFloat.is_infinity x then Raise OverflowError
  else if PrimFloat.ltb x (-62135596800)%float then Raise ValueError
  else if PrimFloat.leb 253402300800%float x then Raise ValueError
  else Return x.

(** One element of [data.result]: the label set, the sample of an instant
    query ([value], empty when the key is absent) and the samples of a ranged
    query ([values], empty when the key is absent). *)
Record series : Type := Series {
  metric : gmap string string;
  value : list scalar;
  values : list (list scalar)
}.

(** [metric.get(k, "unknown")] *)
Definition label (metric : gmap string string) (k : string) : string :=
  default "unknown" (metric !! k).

(** The decoded body: a dict in which [data.result] is the list [l] (missing
    keys give the empty list), or a JSON value that is not a dict, on which
    [.get] raises. *)
Inductive payload : Type :=
  | Results (l : list series)
  | NotADict.

(** [result.get("data", {}).get("result", [])] *)
Definition data_result (p : payload) : result (list series) :=
  match p with
  | Results l => Return l
  | NotADict => Raise AttributeError
  end.

(** ** The metrics backend *)

Record request : Type := Request {
  endpoint : string;
  query_param : string;
  (** [start = end - window] with [end = utcnow()], and the [step]. *)
  range_param : option (timedelta * string)
}.

Inductive response_body : Type :=
  | Json (p : payload)
  | Undecodable (e : exn).

(** What a GET does: the session raises [e], or a response arrives. *)
Inductive reply : Type :=
  | NoReply (e : exn)
  | Reply (status : Z) (body : response_body).

Record backend : Type := Backend {
  (** GET [/-/healthy] *)
  healthy : reply;
  (** GET [/api/v1/query] and [/api/v1/query_range] *)
  api : request → reply
}.

(** The double quote character, for the label matchers of a query. *)
Definition dq : string := String "034"%char EmptyString.

(** Truthiness of an [Optional[str]]. *)
Definition truthy (s : option string) : bool :=
  match s with
  | Some (String _ _) => true
  | _ => false
  end.

(** ** [KeplerClient._prometheus_query] *)

(** The [except aiohttp.ClientError] clause: log and re-raise; any other
    exception passes through unlogged. *)
Definition query_failed {A} (query : string) (e : exn) : io A :=
  if is_client_error e
  then let* _ := log ERROR (QueryFailed query e) in raise e
  else raise e.

Definition _prometheus_query (b : backend) (query : string)
    (time_range : option string) : io payload :=
  let query_url :=
    if truthy time_range then "/api/v1/query_range" else "/api/v1/query" in
  let* range :=
    lift (match time_range with
          | Some (String _ _ as t) =>
              let? delta := _parse_time_range t in Return (Some (delta, "30s"))
          | _ => Return None
          end) in
  match api b (Request query_url query range) with
  | NoReply e => query_failed query e
  | Reply status body =>
      (* response.raise_for_status() *)
      if 400 <=? status then query_failed query (ClientResponseError status)
      else
        (* await response.json() *)
        match body with
        | Json p => ret p
        | Undecodable e => query_failed query e
        end
  end.

(** ** [KeplerClient.health_check] *)

Record health_report : Type := HealthReport {
  prometheus : bool;
  kepler : bool;
  status : string;
  error : option exn
}.

Definition liveness_query : string := "up{job=~" +:+ dq +:+ "kepler.*" +:+ dq +:+ "}".

Definition health_check (b : backend) : io health_report :=
  try_except
    (let* prometheus_healthy :=
       match healthy b with
       | NoReply e => raise e
       | Reply status _ => ret (bool_decide (status = 200))
       end in
     let* kepler_metrics := _prometheus_query b liveness_query None in
     let* series := lift (data_result kepler_metrics) in
     let kepler_healthy := bool_decide (0 < length series)%nat in
     ret (HealthReport prometheus_healthy kepler_healthy
            (if prometheus_healthy && kepler_healthy
             then "healthy" else "unhealthy")
            None))
    (λ e,
       let* _ := log ERROR (HealthCheckFailed e) in
       ret (HealthReport false false "unhealthy" (Some e))).

(** ** Insertion-ordered dictionaries *)

Section dict.
Context {K V : Type} `{EqDecision K}.

(** [d.get(k)], [None] when [k not in d]. *)
Fixpoint dict_get (k : K) (d : list (K * V)) : option V :=
  match d with
  | [] => None
  | (k', v) :: d' => if decide (k' = k) then Some v else dict_get k d'
  end.

(** [d[k] = v]: an existing key keeps its place, a new one goes last. *)
Fixpoint dict_set (k : K) (v : V) (d : list (K * V)) : list (K * V) :=
  match d with
  | [] => [(k, v)]
  | (k', v') :: d' =>
      if decide (k' = k) then (k', v) :: d' else (k', v') :: dict_set k v d'
  end.

(** An in-place update of the object stored under [k]. *)
Fixpoint dict_alter (f : V → V) (k : K) (d : list (K * V)) : list (K * V) :=
  match d with
  | [] => []
  | (k', v) :: d' =>
      if decide (k' = k) then (k', f v) :: d' else (k', v) :: dict_alter f k d'
  end.

(** [list(d.values())] *)
Definition dict_values (d : list (K * V)) : list V := d.*2.
End dict.

(** [l[:stop]], with Python's reading of a negative [stop]. *)
Definition slice_to {A} (l : list A) (stop : Z) : list A :=
  if 0 <=? stop then take (Z.to_nat stop) l
  else take (Z.to_nat (Z.of_nat (length l) + stop)) l.

(** The attribute that [setattr(obj, f"{metric_type}_power_joules", v)]
    names. *)
Definition power_attr (metric_type : string) : string :=
  metric_type +:+ "_power_joules".

(** ** The record classes *)

(** Modelled from the spec: the class [ContainerPowerData] of
    [kepler_client/models.py], which is not among the sources.  The fields
    are the keyword arguments the client constructs it with; [attrs] holds
    the attributes the client assigns with [setattr], by attribute name (an
    attribute that was never assigned is absent: the spec gives such a
    component the default 0.0). *)
Module ContainerPowerData.
Record t : Type := mk {
  container_name : string;
  pod_name : string;
  namespace : string;
  node_name : string;
  power_joules : float;
  timestamp : datetime;
  labels : gmap string string;
  attrs : gmap string float
}.

Definition setattr (name : string) (v : float) (o : t) : t :=
  mk (container_name o) (pod_name o) (namespace o) (node_name o)
     (power_joules o) (timestamp o) (labels o) (<[name := v]> (attrs o)).

(** Modelled from the spec: a component of the record, 0.0 when the pass
    never assigned it. *)
Definition component (metric_type : string) (o : t) : float :=
  default 0%float (attrs o !! power_attr metric_type).
End ContainerPowerData.

(** Modelled from the spec: the class [NodePowerData] of
    [kepler_client/models.py], in the same way. *)
Module NodePowerData.
Record t : Type := mk {
  node_name : string;
  platform_power_joules : float;
  timestamp : datetime;
  labels : gmap string string;
  attrs : gmap string float
}.

Definition setattr (name : string) (v : float) (o : t) : t :=
  mk (node_name o) (platform_power_joules o) (timestamp o) (labels o)
     (<[name := v]> (attrs o)).
End NodePowerData.

(** ** [KeplerClient.get_container_power_metrics] *)

Definition join_filters (filters : list string) : string :=
  match filters with
  | [] => EmptyString
  | f :: fs => fold_left (λ acc g, acc +:+ "," +:+ g) fs f
  end.

Definition container_power_query (namespace workload : option string) : string :=
  let base_query := "kepler_container_joules_total" in
  let filters :=
    (match namespace with
     | Some (String _ _ as ns) => ["container_namespace=" +:+ dq +:+ ns +:+ dq]
     | _ => []
     end) ++
    (match workload with
     | Some (String _ _ as w) => ["pod_name=~" +:+ dq +:+ ".*" +:+ w +:+ ".*" +:+ dq]
     | _ => []
     end) in
  match filters with
  | [] => base_query
  | _ => base_query +:+ "{" +:+ join_filters filters +:+ "}"
  end.

(** The body of the loop over [data.result]: a series with samples appends
    one record, read from the last sample. *)
Definition latest_sample_record (series : series)
    (containers : list ContainerPowerData.t)
  : result (list ContainerPowerData.t) :=
  let metric := metric series in
  match last (values series) with
  | Some latest_value =>
      let? ts := py_index latest_value 0 in
      let? t := py_float ts in
      let? timestamp := fromtimestamp t in
      let? pw := py_index latest_value 1 in
      let? power_joules := py_float pw in
      Return (containers ++
        [ContainerPowerData.mk
           (label metric "container_name")
           (label metric "pod_name")
           (label metric "container_namespace")
           (label metric "instance")
           power_joules timestamp metric ∅])
  | None => Return containers
  end.

Definition get_container_power_metrics (b : backend)
    (namespace workload : option string) (time_range : string)
  : io (list ContainerPowerData.t) :=
  try_except
    (let query := container_power_query namespace workload in
     let* result := _prometheus_query b query (Some time_range) in
     let* rs := lift (data_result result) in
     let* containers := lift (for_result rs latest_sample_record []) in
     let* _ := log INFO (ContainerCollectionCompleted (length containers)) in
     ret containers)
    (λ e,
       let* _ := log ERROR (ContainerCollectionFailed e) in raise e).

(** ** [KeplerClient.get_all_container_metrics] *)

Definition container_key : Type := string * string * string.

Definition queries : list (string * string) :=
  [ ("total", "kepler_container_joules_total");
    ("cpu", "kepler_container_cpu_joules_total");
    ("gpu", "kepler_container_gpu_joules_total");
    ("memory", "kepler_container_dram_joules_total");
    ("other", "kepler_container_other_joules_total") ].

Definition namespaced (base_query : string) (namespace : option string) : string :=
  match namespace with
  | Some (String _ _ as ns) =>
      base_query +:+ "{container_namespace=" +:+ dq +:+ ns +:+ dq +:+ "}"
  | _ => base_query
  end.

Definition key_of (metric : gmap string string) : container_key :=
  (label metric "container_name",
   label metric "pod_name",
   label metric "container_namespace").

(** The body of the loop over the series of one metric type. *)
Definition merge_series (metric_type : string) (series : series)
    (containers_map : list (container_key * ContainerPowerData.t))
  : result (list (container_key * ContainerPowerData.t)) :=
  let metric := metric series in
  let value_data := value series in
  if bool_decide (1 < length value_data)%nat then
    let key := key_of metric in
    let? containers_map :=
      match dict_get key containers_map with
      | Some _ => Return containers_map
      | None =>
          let? ts := py_index value_data 0 in
          let? t := py_float ts in
          let? timestamp := fromtimestamp t in
          Return (dict_set key
                    (ContainerPowerData.mk key.1.1 key.1.2 key.2
                       (label metric "instance") 0%float timestamp metric ∅)
                    containers_map)
      end in
    let? x := py_index value_data 1 in
    let? v := py_float x in
    Return (dict_alter (ContainerPowerData.setattr (power_attr metric_type) v)
              key containers_map)
  else Return containers_map.

(** The body of the loop over [queries.items()]. *)
Definition collect_metric_type (b : backend) (namespace : option string)
    (q : string * string)
    (containers_map : list (container_key * ContainerPowerData.t))
  : io (list (container_key * ContainerPowerData.t)) :=
  let '(metric_type, base_query) := q in
  let query := namespaced base_query namespace in
  let* result := _prometheus_query b query None in
  let* rs := lift (data_result result) in
  lift (for_result rs (merge_series metric_type) containers_map).

Definition get_all_container_metrics (b : backend)
    (namespace : option string) (limit : Z)
  : io (list ContainerPowerData.t) :=
  try_except
    (let* containers_map :=
       for_io queries (collect_metric_type b namespace) [] in
     let containers := slice_to (dict_values containers_map) limit in
     let* _ := log INFO (AllContainerCollectionCompleted (length containers)) in
     ret containers)
    (λ e,
       let* _ := log ERROR (AllContainerCollectionFailed e) in raise e).

(** ** [KeplerClient.get_node_power_metrics] and [_enrich_node_metrics] *)

Definition component_queries : list (string * string) :=
  [ ("cpu", "kepler_node_cpu_joules_total");
    ("dram", "kepler_node_dram_joules_total");
    ("uncore", "kepler_node_uncore_joules_total");
    ("pkg", "kepler_node_package_joules_total") ].

(** A loop whose body mutates objects that outlive it: on an exception the
    state reached so far stays, and the exception is handed back with it. *)
Fixpoint for_mut {A S} (l : list A) (body : A → S → result S) (s : S)
  : S * option exn :=
  match l with
  | [] => (s, None)
  | x :: l' =>
      match body x s with
      | Return s' => for_mut l' body s'
      | Raise e => (s, Some e)
      end
  end.

(** [{node.node_name: node for node in nodes}]: the objects are shared with
    the list [nodes], so the dict maps a name to the position of its object
    in [nodes]; of two nodes with one name the later one is kept. *)
Fixpoint index_nodes (i : nat) (nodes : list NodePowerData.t)
    (node_map : gmap string nat) : gmap string nat :=
  match nodes with
  | [] => node_map
  | node :: nodes' =>
      index_nodes (S i) nodes' (<[NodePowerData.node_name node := i]> node_map)
  end.

(** The body of the loop over the series of one component. *)
Definition set_component (node_map : gmap string nat) (component : string)
    (series : series) (nodes : list NodePowerData.t)
  : result (list NodePowerData.t) :=
  let metric := metric series in
  let value_data := value series in
  if bool_decide (1 < length value_data)%nat then
    let node_name := label metric "instance" in
    match node_map !! node_name with
    | Some i =>
        let? x := py_index value_data 1 in
        let? v := py_float x in
        Return (alter (NodePowerData.setattr (power_attr component) v) i nodes)
    | None => Return nodes
    end
  else Return nodes.

(** The body of the loop over [component_queries.items()], with its
    [try ... except Exception: logger.warning(...); continue]. *)
Definition enrich_component (b : backend) (node_map : gmap string nat)
    (q : string * string) (nodes : list NodePowerData.t)
  : io (list NodePowerData.t) :=
  let '(component, query) := q in
  let fetched :=
    (let* result := _prometheus_query b query None in
     lift (data_result result)) in
  match fetched.1 with
  | Return rs =>
      match for_mut rs (set_component node_map component) nodes with
      | (nodes', None) => (Return nodes', fetched.2)
      | (nodes', Some e) =>
          (Return nodes',
           fetched.2 ++ [(WARNING, NodeComponentFailed component e)])
      end
  | Raise e =>
      (Return nodes, fetched.2 ++ [(WARNING, NodeComponentFailed component e)])
  end.

Definition _enrich_node_metrics (b : backend) (nodes : list NodePowerData.t)
  : io (list NodePowerData.t) :=
  let node_map := index_nodes 0 nodes ∅ in
  for_io component_queries (enrich_component b node_map) nodes.

(** The body of the loop over the series of the platform query. *)
Definition platform_record (series : series) (nodes : list NodePowerData.t)
  : result (list NodePowerData.t) :=
  let metric := metric series in
  let value_data := value series in
  if bool_decide (1 < length value_data)%nat then
    let? x := py_index value_data 1 in
    let? platform_power_joules := py_float x in
    let? ts := py_index value_data 0 in
    let? t := py_float ts in
    let? timestamp := fromtimestamp t in
    Return (nodes ++
      [NodePowerData.mk (label metric "instance") platform_power_joules
         timestamp metric ∅])
  else Return nodes.

Definition platform_query : string := "kepler_node_platform_joules_total".

Definition get_node_power_metrics (b : backend) : io (list NodePowerData.t) :=
  try_except
    (let* result := _prometheus_query b platform_query None in
     let* rs := lift (data_result result) in
     let* nodes := lift (for_result rs platform_record []) in
     let* nodes := _enrich_node_metrics b nodes in
     let* _ := log INFO (NodeCollectionCompleted (length nodes)) in
     ret nodes)
    (λ e,
       let* _ := log ERROR (NodeCollectionFailed e) in raise e).

(** ** The cost calculator *)

Record CostResult : Type := {
  energy_cost_amount : float;
  carbon_mass_estimate : float
}.

(** Modelled from the spec: the class [PowerCalculator] of
    [power_metrics], constructed in [main.py] with [electricity_rate],
    [cooling_factor] and [carbon_rate]; its module is not among the
    sources. *)
Record PowerCalculator : Type := {
  electricity_rate : float;
  cooling_factor : float;
  carbon_rate : float
}.

(** Modelled from the spec: a negative energy is clamped to zero before the
    conversion. *)
Definition clamp_energy (joules : float) : float :=
  if PrimFloat.ltb joules 0 then 0%float else joules.

(** Modelled from the spec: [calculateCost], on the energy of a record in
    joules.  kWh = joules / 3_600_000; the cost is kWh x electricityRate x
    coolingFactor, the carbon estimate kWh x carbonRate. *)
Definition calculate_cost (c : PowerCalculator) (joules : float) : CostResult :=
  let kwh := (clamp_energy joules / 3600000)%float in
  {| energy_cost_amount := (kwh * electricity_rate c * cooling_factor c)%float;
     carbon_mass_estimate := (kwh * carbon_rate c)%float |}.

(** ** [KeplerClient.__init__] and the HTTP session *)

(** [s.rstrip('/')] *)
Fixpoint rstrip_slash (s : string) : string :=
  match s with
  | EmptyString => EmptyString
  | String a s' =>
      match rstrip_slash s' with
      | EmptyString =>
          if bool_decide (a = "/"%char) then EmptyString
          else String a EmptyString
      | r => String a r
      end
  end.

(** The client object, and beside it the number of [aiohttp.ClientSession]
    objects that were created and not yet closed. *)
Module KeplerClient.
(** [ClientSession(connector=TCPConnector(limit=...),
                   timeout=ClientTimeout(total=...))] *)
Record ClientSession : Type := mkSession { limit : Z; total : Z }.

Record t : Type := mk {
  prometheus_url : string;
  metrics_interval : string;
  session : option ClientSession
}.

Record state : Type := mkState { self : t; open_sessions : nat }.

Definition __init__ (prometheus_url metrics_interval : string) : state :=
  mkState (mk (rstrip_slash prometheus_url) metrics_interval None) 0.

Definition _ensure_session (st : state) : state :=
  match session (self st) with
  | None =>
      mkState (mk (prometheus_url (self st)) (metrics_interval (self st))
                  (Some (mkSession 10 30)))
              (S (open_sessions st))
  | Some _ => st
  end.

Definition close (st : state) : state :=
  match session (self st) with
  | Some _ =>
      mkState (mk (prometheus_url (self st)) (metrics_interval (self st)) None)
              (pred (open_sessions st))
  | None => st
  end.

Definition __aenter__ (st : state) : state := _ensure_session st.
Definition __aexit__ (st : state) : state := close st.

(** What a user of the client does with it.  Every public method
    ([health_check], the [get_...] methods) starts, directly or through
    [_prometheus_query], with [_ensure_session], and does nothing else to
    the session. *)
Inductive call : Type := Enter | Exit | Close | Method.

Definition step (st : state) (c : call) : state :=
  match c with
  | Enter => __aenter__ st
  | Exit => __aexit__ st
  | Close => close st
  | Method => _ensure_session st
  end.

Definition run (calls : list call) (st : state) : state :=
  fold_left step calls st.
End KeplerClient.

(** ** [KeplerClient.get_workload_power_summary] *)

(** The dict the summary returns ([timestamp] apart); [message] is present
    in the dict of a workload without data, [containers] in the other. *)
Module WorkloadSummary.
Record entry : Type := mkEntry {
  name : string;
  pod : string;
  namespace : string;
  power_joules : float
}.

Record t : Type := mk {
  workload_name : string;
  total_power_joules : float;
  container_count : nat;
  message : option string;
  containers : option (list entry)
}.
End WorkloadSummary.

(** The log lines of the summary: those of the container pass it runs, and
    its own. *)
Inductive workload_message : Type :=
  | Inner (m : message)
  | WorkloadSummaryFailed (e : exn).

(** [sum(xs)] over floats by additions from left to right, starting from the
    integer 0: the builtin of CPython up to 3.11.  Later versions also carry
    a compensation term for the rounding errors, so the summary below takes
    the builtin as its first argument. *)
Definition py_sum (xs : list float) : float :=
  fold_left PrimFloat.add xs 0%float.

Definition get_workload_power_summary (sum : list float → float)
    (b : backend) (workload_name : string)
  : result WorkloadSummary.t * list (level * workload_message) :=
  let r := get_container_power_metrics b None (Some workload_name) "1h" in
  let inner := prod_map id Inner <$> r.2 in
  match r.1 with
  | Return containers =>
      match containers with
      | [] =>
          (Return (WorkloadSummary.mk workload_name 0%float 0
                     (Some "Workload data not found") None),
           inner)
      | _ =>
          let total_power :=
            sum (ContainerPowerData.power_joules <$> containers) in
          (Return (WorkloadSummary.mk workload_name total_power
                     (length containers) None
                     (Some ((λ c, WorkloadSummary.mkEntry
                                    (ContainerPowerData.container_name c)
                                    (ContainerPowerData.pod_name c)
                                    (ContainerPowerData.namespace c)
                                    (ContainerPowerData.power_joules c))
                            <$> containers))),
           inner)
      end
  | Raise e => (Raise e, inner ++ [(ERROR, WorkloadSummaryFailed e)])
  end.

(** ** The endpoints of [main.py] *)

(** The endpoints run on the client that [startup_event] has created. *)
Module Main.
(** The [detail] of an [HTTPException]: its text and the exception in it. *)
Inductive detail : Type :=
  | HealthCheckFailedDetail (e : exn)
  | PowerDataQueryFailed (e : exn)
  | ContainerPowerDataQueryFailed (e : exn)
  | NodePowerDataQueryFailed (e : exn).

Inductive response (A : Type) : Type :=
  | OK (body : A)
  | HTTPException (status_code : Z) (d : detail).
Arguments OK {A} body.
Arguments HTTPException {A} status_code d.

Record health_body (D : Type) : Type := mkHealth {
  health_status : string;
  kepler_service : health_report;
  database_service : D
}.
Arguments mkHealth {D}.
Arguments health_status {D}.
Arguments kepler_service {D}.
Arguments database_service {D}.

(** GET [/health].  [database] is what [data_processor.health_check()]
    does, a method of the class [DataProcessor], which is not among the
    sources: it returns a status or raises. *)
Definition health_check {D} (b : backend) (database : result D)
  : response (health_body D) * list log_entry :=
  let k := health_check b in
  match k.1 with
  | Return kepler_status =>
      match database with
      | Return db_status =>
          (OK (mkHealth "healthy" kepler_status db_status), k.2)
      | Raise e => (HTTPException 503 (HealthCheckFailedDetail e), k.2)
      end
  | Raise e => (HTTPException 503 (HealthCheckFailedDetail e), k.2)
  end.



Record containers_body : Type := mkContainers {
  containers : list ContainerPowerData.t;
  containers_count : nat
}.

(** GET [/power/containers] *)
Definition get_container_power (b : backend) (namespace : option string)
    (limit : Z) : response containers_body * list log_entry :=
  let r := get_all_container_metrics b namespace limit in
  match r.1 with
  | Return containers => (OK (mkContainers containers (length containers)), r.2)
  | Raise e => (HTTPException 500 (ContainerPowerDataQueryFailed e), r.2)
  end.


End Main.

(** * Definitions for the statements *)

(** ** What a query yields *)

(** What the caller of a query gets from a reply: the series of
    [data.result], or the exception it meets: the session's, the one of
    [raise_for_status], the one of [response.json()], or the
    [AttributeError] of [.get] on a body that is not a dict. *)
Definition outcome (r : reply) : result (list series) :=
  match r with
  | NoReply e => Raise e
  | Reply status body =>
      if 400 <=? status then Raise (ClientResponseError status)
      else match body with
           | Json p => data_result p
           | Undecodable e => Raise e
           end
  end.

(** The lines [_prometheus_query] logs on that reply. *)
Definition outcome_log (query : string) (r : reply) : list log_entry :=
  match r with
  | NoReply e =>
      if is_client_error e then [(ERROR, QueryFailed query e)] else []
  | Reply status body =>
      if 400 <=? status
      then [(ERROR, QueryFailed query (ClientResponseError status))]
      else match body with
           | Json p => []
           | Undecodable e =>
               if is_client_error e then [(ERROR, QueryFailed query e)] else []
           end
  end.

(** The request of an instant query. *)
Definition instant_request (query : string) : request :=
  Request "/api/v1/query" query None.

(** What the caller of [_prometheus_query] holds after the walk to
    [data.result] of an instant query (lemma [instant_query_fetch]). *)
Definition fetch (b : backend) (query : string) : result (list series) :=
  outcome (api b (instant_request query)).

(** The lines that query logs. *)
Definition fetch_log (b : backend) (query : string) : list log_entry :=
  outcome_log query (api b (instant_request query)).


(** ** The two checks of the health probe *)

(** The liveness check succeeds: GET [/-/healthy] answers 200. *)
Definition liveness_ok (b : backend) : bool :=
  match healthy b with
  | Reply status _ => bool_decide (status = 200)
  | NoReply _ => false
  end.

(** The data-presence check succeeds: the instant query for
    [up{job=~"kepler.*"}] answers with at least one series. *)
Definition data_present (b : backend) : bool :=
  match fetch b liveness_query with
  | Return (_ :: _) => true
  | _ => false
  end.

(** ** The merge steps of a correlation pass *)

(** A merge step: the metric type of the query and one series of its
    result. *)
Abbreviation step := (string * series)%type (only parsing).

(** The guard [value_data and len(value_data) > 1]. *)
Definition usable (s : series) : bool :=
  bool_decide (1 < length (value s))%nat.

(** A sequence of merge steps, run by the loop body of the client. *)
Definition merge_steps (steps : list step)
    (m : list (container_key * ContainerPowerData.t))
  : result (list (container_key * ContainerPowerData.t)) :=
  for_result steps (λ st, merge_series st.1 st.2) m.

(** The key a record carries in its own fields. *)
Definition record_key (r : ContainerPowerData.t) : container_key :=
  (ContainerPowerData.container_name r, ContainerPowerData.pod_name r,
   ContainerPowerData.namespace r).

(** The fields a record gets when it is created. *)
Definition shell (r : ContainerPowerData.t) :=
  (record_key r, ContainerPowerData.node_name r,
   ContainerPowerData.power_joules r, ContainerPowerData.timestamp r,
   ContainerPowerData.labels r).

(** The attribute [a] of the record under [k], when both exist. *)
Definition attr_of (m : list (container_key * ContainerPowerData.t))
    (k : container_key) (a : string) : option float :=
  r ← dict_get k m; ContainerPowerData.attrs r !! a.

(** The value a step assigns to attribute [a] of the record under [k]. *)
Definition assignment (k : container_key) (a : string) (st : step)
  : option float :=
  if usable st.2 && bool_decide (key_of (metric st.2) = k)
     && bool_decide (power_attr st.1 = a)
  then match value st.2 !! 1%nat with
       | Some (Numeric v) => Some v
       | _ => None
       end
  else None.

(** The last value a sequence of steps assigns to it. *)
Definition assigned (k : container_key) (a : string) (steps : list step)
  : option float :=
  last (omap (assignment k a) steps).


(** The keys of the usable series, in the order of the steps. *)
Definition usable_keys (steps : list step) : list container_key :=
  omap (λ st : step, if usable st.2 then Some (key_of (metric st.2)) else None)
       steps.

(** The order of first appearance: each key once, at its first place;
    [seen] are the keys that appeared before. *)
Fixpoint first_appearance (seen l : list container_key) : list container_key :=
  match l with
  | [] => []
  | k :: l' =>
      if decide (k ∈ seen) then first_appearance seen l'
      else k :: first_appearance (seen ++ [k]) l'
  end.

(** The first usable step for the key [k]. *)
Definition first_seen (k : container_key) (steps : list step) : option step :=
  head (filter (λ st : step, usable st.2 = true ∧ key_of (metric st.2) = k) steps).

(** ** The container pass as a sequence of steps *)

(** The series a query of the pass was answered with (none when it
    failed). *)
Definition answered (b : backend) (namespace : option string)
    (base_query : string) : list series :=
  match fetch b (namespaced base_query namespace) with
  | Return rs => rs
  | Raise _ => []
  end.

(** The steps of a pass over the queries [qs], in the order the client
    runs them. *)
Definition steps_of (b : backend) (namespace : option string)
    (qs : list (string * string)) : list step :=
  concat ((λ q : string * string, pair q.1 <$> answered b namespace q.2) <$> qs).

Definition pass_steps (b : backend) (namespace : option string) : list step :=
  steps_of b namespace queries.

(** The direct total of the key [k]: the value of the last usable series
    of [kepler_container_joules_total] with that key. *)
Definition direct_total (b : backend) (namespace : option string)
    (k : container_key) : option float :=
  last (omap (assignment k "total_power_joules" ∘ pair "total")
             (answered b namespace "kepler_container_joules_total")).

(** The default of the parameter [limit]. *)
Definition default_limit : Z := 100.

(** ** The records of a ranged query *)



(** ** The records of a node pass *)

(** The fields a node record gets from the platform series. *)
Definition anchor (n : NodePowerData.t) :=
  (NodePowerData.node_name n, NodePowerData.platform_power_joules n,
   NodePowerData.timestamp n, NodePowerData.labels n).

(** [n'] is [n] with, at most, other values for the attributes in [P]. *)
Definition keeps (P : string → Prop) (n n' : NodePowerData.t) : Prop :=
  anchor n' = anchor n ∧
  ∀ a, ¬ P a → NodePowerData.attrs n' !! a = NodePowerData.attrs n !! a.

(** ** Backends and records to run the client on *)

(** 0.15, as the nearest binary64 value. *)
Definition rate_15 : float := 0x1.3333333333333p-3%float.

(** The labels of a container series. *)
Definition container_labels (c p n i : string) : gmap string string :=
  {[ "container_name" := c; "pod_name" := p;
     "container_namespace" := n; "instance" := i ]}.

(** A series of an instant query: [value = [t, v]]. *)
Definition instant (m : gmap string string) (t v : float) : series :=
  Series m [Numeric t; Numeric v] [].

(** A reply with status 200 whose [data.result] is [l]. *)
Definition answer (l : list series) : reply := Reply 200 (Json (Results l)).

(** A backend that answers each query expression as the table says, and
    every other one with no series. *)
Definition table_backend (table : list (string * reply)) : backend :=
  Backend (answer [])
          (λ r, default (answer []) (dict_get (query_param r) table)).

Definition web : gmap string string :=
  container_labels "web" "web-0" "prod" "node-1".
Definition db : gmap string string :=
  container_labels "db" "db-0" "prod" "node-2".

(** Every metric type answers for the container [web], but the cpu query
    fails with status 500. *)
Definition cpu_query_down : backend :=
  table_backend
    [ ("kepler_container_joules_total", answer [instant web 100 10]);
      ("kepler_container_cpu_joules_total", Reply 500 (Undecodable JSONDecodeError));
      ("kepler_container_gpu_joules_total", answer [instant web 100 3]);
      ("kepler_container_dram_joules_total", answer [instant web 100 2]);
      ("kepler_container_other_joules_total", answer [instant web 100 1]) ].

(** Components cpu = 4 and gpu = 3 for [web], and no direct total. *)
Definition components_only : backend :=
  table_backend
    [ ("kepler_container_cpu_joules_total", answer [instant web 100 4]);
      ("kepler_container_gpu_joules_total", answer [instant web 100 3]) ].

(** A direct total of 10 sampled at time 100, and a cpu value sampled at
    time 200, for the same container. *)
Definition later_cpu_sample : backend :=
  table_backend
    [ ("kepler_container_joules_total", answer [instant web 100 10]);
      ("kepler_container_cpu_joules_total", answer [instant web 200 4]) ].

(** Two containers. *)
Definition two_containers : backend :=
  table_backend
    [ ("kepler_container_joules_total",
       answer [instant web 100 10; instant db 100 20]) ].

(** The series [{cpu: 5}] and [{total: 10}] of one container. *)
Definition cpu_5 : series := instant web 100 5.
Definition total_10 : series := instant web 100 10.

(** A second series of the cpu query for the container [web], which differs
    from the first in the label [mode] only. *)
Definition cpu_6_idle : series := instant (<["mode" := "idle"]> web) 100 6.

(** The record of [web] after the step [{cpu: 5}]. *)
Definition web_after_cpu : ContainerPowerData.t :=
  ContainerPowerData.mk "web" "web-0" "prod" "node-1" 0%float 100%float web
    {[ "cpu_power_joules" := 5%float ]}.

(** The record the pass over [later_cpu_sample] returns. *)
Definition web_total_cpu : ContainerPowerData.t :=
  ContainerPowerData.mk "web" "web-0" "prod" "node-1" 0%float 100%float web
    {[ "total_power_joules" := 10%float; "cpu_power_joules" := 4%float ]}.

(** The record of [web] in the pass over [two_containers]. *)
Definition web_total : ContainerPowerData.t :=
  ContainerPowerData.mk "web" "web-0" "prod" "node-1" 0%float 100%float web
    {[ "total_power_joules" := 10%float ]}.

(** A window of three samples, (10, 1), (20, 2) and (30, 9), and a series
    without samples. *)
Definition windowed : backend :=
  Backend (answer [])
    (λ r, answer [ Series web []
                     [ [Numeric 10; Numeric 1]; [Numeric 20; Numeric 2];
                       [Numeric 30; Numeric 9] ];
                   Series db [] [] ]).

(** The node of a platform series, and a node pass in which the cpu query
    fails. *)
Definition node_1 : gmap string string := {[ "instance" := "node-1" ]}.

Definition node_cpu_down : backend :=
  table_backend
    [ ("kepler_node_platform_joules_total", answer [instant node_1 100 50]);
      ("kepler_node_cpu_joules_total", NoReply TimeoutError);
      ("kepler_node_dram_joules_total", answer [instant node_1 100 7]) ].

(** A node pass in which the platform query gets no reply. *)
Definition platform_down : backend :=
  table_backend
    [("kepler_node_platform_joules_total", NoReply ClientConnectionError)].

(** ** Further fixtures and predicates *)

(** A window whose last sample has no value. *)
Definition truncated_sample : backend :=
  Backend (answer [])
    (λ r, answer [ Series web [] [ [Numeric 10; Numeric 1]; [Numeric 20] ] ]).

(** The node record that the platform loop builds from a series. *)
Definition from_platform (s : series) (n : NodePowerData.t) : Prop :=
  ∃ t v,
    value s !! 0%nat = Some (Numeric t) ∧ value s !! 1%nat = Some (Numeric v) ∧
    n = NodePowerData.mk (label (metric s) "instance") v t (metric s) ∅.

(** Two platform series of one node, and a cpu series for it. *)
Definition twice_node_1 : backend :=
  table_backend
    [ ("kepler_node_platform_joules_total",
       answer [instant node_1 100 50; instant node_1 100 60]);
      ("kepler_node_cpu_joules_total", answer [instant node_1 100 7]) ].

(** The two records of the pass over [twice_node_1]. *)
Definition node_1_first : NodePowerData.t :=
  NodePowerData.mk "node-1" 50%float 100%float node_1 ∅.

Definition node_1_second : NodePowerData.t :=
  NodePowerData.mk "node-1" 60%float 100%float node_1
    {[ "cpu_power_joules" := 7%float ]}.

(** The component value [v] of the attribute [a] of the node [name] has a
    source: a usable series for that node in the answer of the component
    query of that attribute. *)
Definition component_source (b : backend) (name a : string) (v : float) : Prop :=
  ∃ c q rs s,
    (c, q) ∈ component_queries ∧ a = power_attr c ∧
    fetch b q = Return rs ∧ s ∈ rs ∧ usable s = true ∧
    label (metric s) "instance" = name ∧
    value s !! 1%nat = Some (Numeric v).

(** [n] slashes. *)
Fixpoint slashes (n : nat) : string :=
  match n with
  | O => EmptyString
  | S n' => String "/" (slashes n')
  end.

(** The number of sessions the client object holds. *)
Definition held_sessions (st : KeplerClient.state) : nat :=
  match KeplerClient.session (KeplerClient.self st) with
  | Some _ => 1
  | None => 0
  end.

(** What every step keeps: the open sessions are those the client holds,
    and a session it holds is the one [_ensure_session] configures. *)
Definition session_invariant (st : KeplerClient.state) : Prop :=
  KeplerClient.open_sessions st = held_sessions st ∧
  ∀ s, KeplerClient.session (KeplerClient.self st) = Some s →
       s = KeplerClient.mkSession 10 30.


(** Two pods of a workload, with windows ending in 9 and 5, and a pod
    without samples. *)
Definition two_pods : list series :=
  [ Series web [] [ [Numeric 10; Numeric 1]; [Numeric 30; Numeric 9] ];
    Series db [] [];
    Series db [] [ [Numeric 30; Numeric 5] ] ].

Definition two_pods_backend : backend :=
  Backend (answer []) (λ r, answer two_pods).

(** A backend from which nothing is reachable. *)
Definition unreachable : backend :=
  Backend (NoReply ClientConnectionError) (λ _, NoReply ClientConnectionError).


(** * Properties *)

(** ** The io writer *)

(** ** What a query yields *)

Lemma outcome_log_return query r rs :
  outcome r = Return rs → outcome_log query r = [].
Proof.
  destruct r as [e|st [p|e]]; cbn; [discriminate| |];
    destruct (400 <=? st); try discriminate; reflexivity.
Qed.

Lemma query_outcome query r :
  (let* result :=
     match r with
     | NoReply e => query_failed query e
     | Reply status body =>
         if 400 <=? status then query_failed query (ClientResponseError status)
         else match body with
              | Json p => ret p
              | Undecodable e => query_failed query e
              end
     end in
   lift (data_result result))
  = (outcome r, outcome_log query r).
Proof.
  unfold query_failed. destruct r as [e|st [p|e]]; cbn.
  - destruct (is_client_error e); reflexivity.
  - destruct (400 <=? st); cbn; [reflexivity|].
    destruct p; reflexivity.
  - destruct (400 <=? st); cbn; [reflexivity|].
    destruct (is_client_error e); reflexivity.
Qed.

Lemma instant_query_fetch b query :
  (let* result := _prometheus_query b query None in lift (data_result result))
  = (fetch b query, fetch_log b query).
Proof.
  unfold fetch, fetch_log. rewrite <- query_outcome. reflexivity.
Qed.


Lemma fetch_log_return b query rs :
  fetch b query = Return rs → fetch_log b query = [].
Proof. apply outcome_log_return. Qed.

(** ** The health probe *)

Lemma bind_assoc {A B C} (m : io A) (f : A → io B) (g : B → io C) :
  bind (bind m f) g = bind m (λ x, bind (f x) g).
Proof.
  destruct m as [[a|e] lg]; cbn; [|reflexivity].
  unfold bind; cbn. destruct (f a) as [[x|e] lg']; cbn; [|reflexivity].
  by rewrite app_assoc.
Qed.

(** An instant query followed by the walk to [data.result], as one step. *)
Lemma query_bind {B} b query (k : list series → io B) :
  (let* result := _prometheus_query b query None in
   let* rs := lift (data_result result) in k rs)
  = bind (fetch b query, fetch_log b query) k.
Proof. by rewrite <- instant_query_fetch, bind_assoc. Qed.

Lemma health_check_unfold b :
  health_check b =
  match healthy b with
  | NoReply e =>
      (Return (HealthReport false false "unhealthy" (Some e)),
       [(ERROR, HealthCheckFailed e)])
  | Reply st _ =>
      match fetch b liveness_query with
      | Return rs =>
          let p := bool_decide (st = 200) in
          let k := bool_decide (0 < length rs)%nat in
          (Return (HealthReport p k
                     (if p && k then "healthy" else "unhealthy") None), [])
      | Raise e =>
          (Return (HealthReport false false "unhealthy" (Some e)),
           fetch_log b liveness_query ++ [(ERROR, HealthCheckFailed e)])
      end
  end.
Proof.
  unfold health_check. destruct (healthy b) as [e|st body]; [reflexivity|].
  unfold ret at 1. unfold bind at 1. cbn [fst snd].
  rewrite query_bind.
  destruct (fetch b liveness_query) as [rs|e] eqn:Hf.
  - rewrite (fetch_log_return _ _ _ Hf). reflexivity.
  - reflexivity.
Qed.


(** ** The duration parser *)




Example parse_time_range_examples :
  _parse_time_range "30m" = Return (Timedelta 0 1800) ∧
  _parse_time_range "2h" = Return (Timedelta 0 7200) ∧
  _parse_time_range "3d" = Return (Timedelta 3 0) ∧
  _parse_time_range "xyz" = Return (Timedelta 0 300).
Proof. repeat split; reflexivity. Qed.

(** C6 (the code departs from it). A token with a recognized suffix and a
    prefix that is not a number is not defaulted: [int()] raises
    [ValueError] and the parser raises with it; a number too large for a
    timedelta raises [OverflowError]. *)
Theorem parse_time_range_raises :
  _parse_time_range "xm" = Raise ValueError ∧
  _parse_time_range "m" = Raise ValueError ∧
  _parse_time_range "1.5h" = Raise ValueError ∧
  _parse_time_range "1000000000d" = Raise OverflowError.
Proof. repeat split; reflexivity. Qed.

(** ** The cost calculator *)

(** C8, as the claim states it, fails on a negative energy: the clamp gives
    a zero cost where the formula gives a negative one. *)
Lemma calculate_cost_negative_energy :
  let c := {| electricity_rate := rate_15; cooling_factor := 1;
              carbon_rate := 0.5 |} in
  let E := (-3600000)%float in
  energy_cost_amount (calculate_cost c E)
    ≠ (E / 3600000 * electricity_rate c * cooling_factor c)%float ∧
  carbon_mass_estimate (calculate_cost c E)
    ≠ (E / 3600000 * carbon_rate c)%float.
Proof.
  split; intros H; apply (f_equal PrimFloat.is_zero) in H;
    vm_compute in H; discriminate.
Qed.

(** C8 (amended). For an energy [E] that is not negative, the cost is
    (E / 3_600_000) x rate x cooling and the carbon estimate
    (E / 3_600_000) x carbonRate; the carbon estimate is the same whatever
    the cooling factor; and one kWh at rate 0.15, cooling 1.0 and carbon
    rate 0.5 costs 0.15 and emits 0.5. *)
Theorem calculate_cost_formula (r f c E : float) :
  PrimFloat.ltb E 0 = false →
  calculate_cost {| electricity_rate := r; cooling_factor := f;
                    carbon_rate := c |} E
  = {| energy_cost_amount := (E / 3600000 * r * f)%float;
       carbon_mass_estimate := (E / 3600000 * c)%float |}
  ∧ (∀ f', carbon_mass_estimate
             (calculate_cost {| electricity_rate := r; cooling_factor := f';
                                carbon_rate := c |} E)
           = (E / 3600000 * c)%float)
  ∧ calculate_cost {| electricity_rate := rate_15; cooling_factor := 1;
                      carbon_rate := 0.5 |} 3600000
    = {| energy_cost_amount := rate_15; carbon_mass_estimate := 0.5 |}.
Proof.
  intros HE. unfold calculate_cost, clamp_energy; cbn. rewrite HE.
  repeat split.
Qed.

Lemma calculate_cost_formula_witness :
  calculate_cost {| electricity_rate := rate_15; cooling_factor := 2;
                    carbon_rate := 0.5 |} 7200000
  = {| energy_cost_amount := (7200000 / 3600000 * rate_15 * 2)%float;
       carbon_mass_estimate := (7200000 / 3600000 * 0.5)%float |}.
Proof.
  apply (calculate_cost_formula rate_15 2 0.5 7200000). reflexivity.
Defined.

(** ** Facts about the loops and the dictionaries *)

Lemma for_result_app {A S} (l1 l2 : list A) (body : A → S → result S) s :
  for_result (l1 ++ l2) body s
  = rbind (for_result l1 body s) (for_result l2 body).
Proof.
  revert s; induction l1 as [|x l1 IH]; intros s; cbn; [reflexivity|].
  destruct (body x s); cbn; auto.
Qed.

Lemma for_result_fmap {A B S} (f : A → B) (l : list A)
    (body : B → S → result S) s :
  for_result (f <$> l) body s = for_result l (λ x, body (f x)) s.
Proof.
  revert s; induction l as [|x l IH]; intros s; cbn; [reflexivity|].
  destruct (body (f x) s); cbn; auto.
Qed.

Section dict_facts.
Context {K V : Type} `{EqDecision K}.
Implicit Types (d : list (K * V)) (k : K) (v : V).

Lemma dict_get_None k d : dict_get k d = None ↔ k ∉ d.*1.
Proof.
  induction d as [|[k' v] d IH]; cbn.
  - split; [intros _; apply not_elem_of_nil | done].
  - rewrite not_elem_of_cons. destruct (decide (k' = k)) as [->|Hne].
    + split; [done | intros [? _]; done].
    + rewrite IH. split; [intros; split; [congruence|done] | intros [_ ?]; done].
Qed.

Lemma dict_elem_get k v d : NoDup d.*1 → (k, v) ∈ d → dict_get k d = Some v.
Proof.
  induction d as [|[k' v'] d IH]; cbn; [intros _ Hin; by apply elem_of_nil in Hin|].
  rewrite NoDup_cons. intros [Hk' Hnd]. rewrite elem_of_cons.
  intros [[= -> ->]|Hin].
  - by rewrite decide_True.
  - destruct (decide (k' = k)) as [->|Hne]; [|auto].
    exfalso. apply Hk'. apply list_elem_of_fmap. by exists (k, v).
Qed.

Lemma dict_get_set k k' v d :
  dict_get k' (dict_set k v d) = if decide (k = k') then Some v else dict_get k' d.
Proof.
  induction d as [|[k0 v0] d IH]; cbn.
  - destruct (decide (k = k')); reflexivity.
  - destruct (decide (k0 = k)) as [->|Hne]; cbn.
    + destruct (decide (k = k')); reflexivity.
    + destruct (decide (k0 = k')) as [->|Hne'].
      * by rewrite decide_False by done.
      * apply IH.
Qed.

Lemma dict_get_alter (f : V → V) k k' d :
  dict_get k' (dict_alter f k d)
  = if decide (k = k') then f <$> dict_get k' d else dict_get k' d.
Proof.
  induction d as [|[k0 v0] d IH]; cbn.
  - destruct (decide (k = k')); reflexivity.
  - destruct (decide (k0 = k)) as [->|Hne]; cbn.
    + destruct (decide (k = k')); reflexivity.
    + destruct (decide (k0 = k')) as [->|Hne'].
      * by rewrite decide_False by done.
      * apply IH.
Qed.

Lemma dict_keys_set_new k v d :
  dict_get k d = None → (dict_set k v d).*1 = d.*1 ++ [k].
Proof.
  induction d as [|[k0 v0] d IH]; cbn; [reflexivity|].
  destruct (decide (k0 = k)); [discriminate|]. intros Hd. cbn. by rewrite IH.
Qed.

Lemma dict_keys_alter (f : V → V) k d : (dict_alter f k d).*1 = d.*1.
Proof.
  induction d as [|[k0 v0] d IH]; cbn; [reflexivity|].
  destruct (decide (k0 = k)); cbn; by rewrite ?IH.
Qed.
End dict_facts.

(** ** The merge steps of a correlation pass *)

Lemma usable_index s :
  usable s = true → ∃ x0 x1, value s !! 0%nat = Some x0 ∧ value s !! 1%nat = Some x1.
Proof.
  unfold usable. intros Hu%bool_decide_eq_true.
  destruct (value s) as [|x0 [|x1 ?]]; cbn in *; try lia. eauto.
Qed.

(** One step, spelled out: a series that is not usable changes nothing; a
    usable one creates the record when its key is new, and then assigns its
    own attribute. *)
Lemma merge_series_unfold mt s m m' :
  merge_series mt s m = Return m' →
  (usable s = false ∧ m' = m) ∨
  (usable s = true ∧ ∃ v,
     value s !! 1%nat = Some (Numeric v) ∧
     let k := key_of (metric s) in
     ((∃ r, dict_get k m = Some r ∧
            m' = dict_alter (ContainerPowerData.setattr (power_attr mt) v) k m) ∨
      (dict_get k m = None ∧ ∃ t,
         value s !! 0%nat = Some (Numeric t) ∧ fromtimestamp t = Return t ∧
         m' = dict_alter (ContainerPowerData.setattr (power_attr mt) v) k
                (dict_set k
                   (ContainerPowerData.mk k.1.1 k.1.2 k.2
                      (label (metric s) "instance") 0%float t (metric s) ∅) m)))).
Proof.
  unfold merge_series. fold (usable s).
  destruct (usable s) eqn:Hu; [|intros [= <-]; by left].
  intros Hm. right. split; [done|].
  destruct (usable_index s Hu) as (x0 & x1 & H0 & H1).
  unfold py_index in Hm. rewrite H0, H1 in Hm.
  destruct (dict_get (key_of (metric s)) m) as [r|] eqn:Hget; cbn in Hm.
  - destruct x1 as [v|]; cbn in Hm; [|discriminate].
    injection Hm as <-. exists v. split; [done|]. left. eauto.
  - destruct x0 as [t|]; cbn in Hm; [|discriminate].
    assert (fromtimestamp t = Return t) as Ht.
    { unfold fromtimestamp in *. repeat case_match; try discriminate; done. }
    rewrite Ht in Hm. cbn in Hm.
    destruct x1 as [v|]; cbn in Hm; [|discriminate].
    injection Hm as <-. exists v. split; [done|]. right. split; [done|].
    exists t. done.
Qed.

Lemma assignment_unusable k a st : usable st.2 = false → assignment k a st = None.
Proof. unfold assignment. by intros ->. Qed.

(** One step and the attributes. *)
Lemma merge_series_attr mt s m m' k a :
  merge_series mt s m = Return m' →
  attr_of m' k a
  = match assignment k a (mt, s) with
    | Some v => Some v
    | None => attr_of m k a
    end.
Proof.
  intros Hm. apply merge_series_unfold in Hm as [[Hu ->]|(Hu & v & Hv & Hcase)].
  { by rewrite assignment_unusable. }
  unfold assignment; cbn [fst snd]. rewrite Hu, Hv. cbn [andb].
  unfold attr_of. cbn zeta in Hcase.
  destruct Hcase as [(r & Hget & ->)|(Hget & t & Ht & _ & ->)];
    rewrite dict_get_alter.
  - destruct (decide (key_of (metric s) = k)) as [<-|Hne].
    + rewrite bool_decide_eq_true_2 by done. rewrite Hget. cbn.
      case_bool_decide as Ha; cbn.
      * subst a. by rewrite lookup_insert_eq.
      * by rewrite lookup_insert_ne.
    + by rewrite bool_decide_eq_false_2.
  - rewrite dict_get_set.
    destruct (decide (key_of (metric s) = k)) as [<-|Hne].
    + rewrite bool_decide_eq_true_2 by done. rewrite Hget. cbn.
      case_bool_decide as Ha; cbn.
      * subst a. by rewrite lookup_insert_eq.
      * rewrite lookup_insert_ne by done. by rewrite lookup_empty.
    + by rewrite bool_decide_eq_false_2.
Qed.

Lemma assigned_cons k a st steps :
  assigned k a (st :: steps)
  = match assigned k a steps with
    | Some v => Some v
    | None => assignment k a st
    end.
Proof.
  unfold assigned. cbn. destruct (assignment k a st) as [v|]; [|by destruct (last _)].
  destruct (omap (assignment k a) steps) as [|y l] eqn:Ho; [done|].
  rewrite last_cons. by destruct (last (y :: l)) eqn:Hl.
Qed.

(** A sequence of steps and the attributes: an attribute holds the last
    value assigned to it, and is as it was when no step assigned it. *)
Lemma merge_steps_attr steps m m' k a :
  merge_steps steps m = Return m' →
  attr_of m' k a
  = match assigned k a steps with
    | Some v => Some v
    | None => attr_of m k a
    end.
Proof.
  unfold merge_steps. revert m.
  induction steps as [|[mt s] steps IH]; intros m; cbn.
  - by intros [= <-].
  - destruct (merge_series mt s m) as [m1|e] eqn:Hm1; cbn; [|done].
    intros Hm'. rewrite (IH _ Hm'), assigned_cons.
    destruct (assigned k a steps); [done|].
    by apply merge_series_attr.
Qed.

Lemma key_eta (k : container_key) : (k.1.1, k.1.2, k.2) = k.
Proof. by destruct k as [[? ?] ?]. Qed.

(** One step keeps every record that exists, with the fields it was created
    with. *)
Lemma merge_series_shell mt s m m' k r :
  merge_series mt s m = Return m' →
  dict_get k m = Some r →
  ∃ r', dict_get k m' = Some r' ∧ shell r' = shell r.
Proof.
  intros Hm Hr. apply merge_series_unfold in Hm as [[Hu ->]|(Hu & v & Hv & Hcase)].
  { eauto. }
  cbn zeta in Hcase.
  destruct Hcase as [(r0 & Hget & ->)|(Hget & t & Ht & _ & ->)];
    rewrite dict_get_alter.
  - destruct (decide (key_of (metric s) = k)) as [<-|Hne]; rewrite Hr; cbn; eauto.
  - rewrite dict_get_set.
    destruct (decide (key_of (metric s) = k)) as [<-|Hne]; [congruence|].
    rewrite Hr. eauto.
Qed.

Lemma merge_steps_shell steps m m' k r :
  merge_steps steps m = Return m' →
  dict_get k m = Some r →
  ∃ r', dict_get k m' = Some r' ∧ shell r' = shell r.
Proof.
  unfold merge_steps. revert m r.
  induction steps as [|[mt s] steps IH]; intros m r; cbn.
  - intros [= <-]. eauto.
  - destruct (merge_series mt s m) as [m1|e] eqn:Hm1; cbn; [|done].
    intros Hm' Hr.
    destruct (merge_series_shell _ _ _ _ _ _ Hm1 Hr) as (r1 & Hr1 & Hs1).
    destruct (IH _ _ Hm' Hr1) as (r' & Hr' & Hs'). exists r'. split; [done|].
    congruence.
Qed.

(** One step and the keys: a new key goes last, nothing else moves. *)
Lemma merge_series_keys mt s m m' :
  merge_series mt s m = Return m' →
  m'.*1 = m.*1 ++ first_appearance m.*1 (usable_keys [(mt, s)]).
Proof.
  intros Hm. apply merge_series_unfold in Hm as [[Hu ->]|(Hu & v & Hv & Hcase)];
    unfold usable_keys; cbn; rewrite Hu; cbn.
  { by rewrite app_nil_r. }
  destruct Hcase as [(r0 & Hget & ->)|(Hget & t & Ht & _ & ->)];
    rewrite dict_keys_alter.
  - rewrite decide_True; [by rewrite app_nil_r|].
    apply dec_stable. intros Hn%dict_get_None. congruence.
  - rewrite decide_False by (by apply dict_get_None).
    by apply dict_keys_set_new.
Qed.

Lemma first_appearance_app seen l1 l2 :
  first_appearance seen (l1 ++ l2)
  = first_appearance seen l1
    ++ first_appearance (seen ++ first_appearance seen l1) l2.
Proof.
  revert seen; induction l1 as [|k l1 IH]; intros seen; cbn.
  - by rewrite app_nil_r.
  - destruct (decide (k ∈ seen)); [apply IH|].
    cbn. rewrite IH. by rewrite <- app_assoc.
Qed.

Lemma usable_keys_cons st steps :
  usable_keys (st :: steps) = usable_keys [st] ++ usable_keys steps.
Proof. unfold usable_keys; cbn. by destruct (usable st.2). Qed.

(** A sequence of steps and the keys: the keys of the map stay in place,
    and the new ones follow in the order of their first appearance. *)
Lemma merge_steps_keys steps m m' :
  merge_steps steps m = Return m' →
  m'.*1 = m.*1 ++ first_appearance m.*1 (usable_keys steps).
Proof.
  unfold merge_steps. revert m.
  induction steps as [|[mt s] steps IH]; intros m; cbn -[usable_keys].
  - intros [= <-]. by rewrite app_nil_r.
  - destruct (merge_series mt s m) as [m1|e] eqn:Hm1; cbn -[usable_keys]; [|done].
    intros Hm'. rewrite (IH _ Hm'), usable_keys_cons, first_appearance_app.
    rewrite (merge_series_keys _ _ _ _ Hm1). by rewrite <- app_assoc.
Qed.

Lemma first_appearance_NoDup seen l :
  NoDup seen → NoDup (seen ++ first_appearance seen l).
Proof.
  revert seen; induction l as [|k l IH]; intros seen Hnd; cbn.
  - by rewrite app_nil_r.
  - destruct (decide (k ∈ seen)) as [Hin|Hin]; [by apply IH|].
    rewrite cons_middle, (assoc_L (++) seen [k]). apply IH.
    apply NoDup_app. split_and!; [done| |apply NoDup_singleton].
    intros x Hx ->%list_elem_of_singleton. done.
Qed.

(** The records keep the key they are stored under. *)
Lemma merge_series_record_key mt s m m' :
  (∀ k r, dict_get k m = Some r → record_key r = k) →
  merge_series mt s m = Return m' →
  ∀ k r, dict_get k m' = Some r → record_key r = k.
Proof.
  intros Hwk Hm k r.
  apply merge_series_unfold in Hm as [[Hu ->]|(Hu & v & Hv & Hcase)]; [apply Hwk|].
  cbn zeta in Hcase.
  destruct Hcase as [(r0 & Hget & ->)|(Hget & t & Ht & _ & ->)];
    rewrite dict_get_alter.
  - destruct (decide (key_of (metric s) = k)) as [<-|Hne]; [|apply Hwk].
    rewrite Hget. cbn. intros [= <-]. apply (Hwk _ _ Hget).
  - rewrite dict_get_set.
    destruct (decide (key_of (metric s) = k)) as [<-|Hne]; [|apply Hwk].
    intros [= <-]. reflexivity.
Qed.

Lemma merge_steps_record_key steps m m' :
  (∀ k r, dict_get k m = Some r → record_key r = k) →
  merge_steps steps m = Return m' →
  ∀ k r, dict_get k m' = Some r → record_key r = k.
Proof.
  unfold merge_steps. revert m.
  induction steps as [|[mt s] steps IH]; intros m Hwk; cbn.
  - by intros [= <-].
  - destruct (merge_series mt s m) as [m1|e] eqn:Hm1; cbn; [|done].
    apply IH. by eapply merge_series_record_key.
Qed.

(** A record that a sequence of steps creates has the fields of the first
    usable series of its key. *)
Lemma merge_steps_created steps m m' k r' :
  merge_steps steps m = Return m' →
  dict_get k m = None →
  dict_get k m' = Some r' →
  ∃ mt s t,
    first_seen k steps = Some (mt, s) ∧
    value s !! 0%nat = Some (Numeric t) ∧
    fromtimestamp t = Return t ∧
    shell r' = (k, label (metric s) "instance", 0%float, t, metric s).
Proof.
  unfold merge_steps. revert m.
  induction steps as [|[mt s] steps IH]; intros m; cbn.
  - intros [= <-] Hnone Hsome. congruence.
  - destruct (merge_series mt s m) as [m1|e] eqn:Hm1; cbn; [|done].
    intros Hm' Hnone Hsome. unfold first_seen. rewrite filter_cons. cbn [fst snd].
    apply merge_series_unfold in Hm1 as [[Hu Hm1]|(Hu & v & Hv & Hcase)].
    { subst m1. rewrite decide_False by (rewrite Hu; intros [? _]; done). eauto. }
    cbn zeta in Hcase.
    destruct (decide (key_of (metric s) = k)) as [Hk|Hne].
    + rewrite decide_True by done. cbn.
      destruct Hcase as [(r0 & Hget & Hm1)|(Hget & t & Ht & Hts & Hm1)];
        [congruence|].
      exists mt, s, t. split_and!; try done.
      assert (dict_get k m1 =
              Some (ContainerPowerData.setattr (power_attr mt) v
                      (ContainerPowerData.mk k.1.1 k.1.2 k.2
                         (label (metric s) "instance") 0%float t (metric s) ∅)))
        as Hr1.
      { subst m1 k. rewrite dict_get_alter, decide_True by done.
        by rewrite dict_get_set, decide_True. }
      destruct (merge_steps_shell _ _ _ _ _ Hm' Hr1) as (r'' & Hr'' & Hs).
      assert (r'' = r') as -> by congruence.
      rewrite Hs. unfold shell, record_key; cbn. by rewrite key_eta.
    + rewrite decide_False by (intros [_ ?]; done).
      apply (IH m1); [done| |done].
      destruct Hcase as [(r0 & Hget & ->)|(Hget & t & Ht & _ & ->)];
        rewrite dict_get_alter, decide_False by done; [done|].
      by rewrite dict_get_set, decide_False.
Qed.

(** ** The container pass as a sequence of steps *)

Lemma collect_metric_type_unfold b namespace q m :
  collect_metric_type b namespace q m
  = match fetch b (namespaced q.2 namespace) with
    | Return rs => (for_result rs (merge_series q.1) m, [])
    | Raise e => (Raise e, fetch_log b (namespaced q.2 namespace))
    end.
Proof.
  destruct q as [mt base_query]. unfold collect_metric_type. cbn [fst snd].
  rewrite query_bind.
  destruct (fetch b _) as [rs|e] eqn:Hf; [|reflexivity].
  rewrite (fetch_log_return _ _ _ Hf). unfold bind, lift; cbn.
  by destruct (for_result rs _ m).
Qed.

(** A failed query ends the loop over the queries with an exception. *)
Lemma for_io_collect_raises b namespace qs q e m :
  q ∈ qs →
  fetch b (namespaced q.2 namespace) = Raise e →
  ∃ e' lg, for_io qs (collect_metric_type b namespace) m = (Raise e', lg).
Proof.
  intros Hin Hf. revert m.
  induction qs as [|q0 qs IH]; intros m; [by apply elem_of_nil in Hin|].
  cbn. apply elem_of_cons in Hin as [<-|Hin].
  - rewrite collect_metric_type_unfold, Hf. cbn. eauto.
  - destruct (collect_metric_type b namespace q0 m) as [[m1|e1] lg1] eqn:Hc;
      unfold bind; cbn; [|eauto].
    destruct (IH Hin m1) as (e' & lg & ->). cbn. eauto.
Qed.

(** When every query is answered the loop is the sequence of its steps, and
    logs nothing. *)
Lemma for_io_collect_answered b namespace qs m :
  Forall (λ q, ∃ rs, fetch b (namespaced q.2 namespace) = Return rs) qs →
  for_io qs (collect_metric_type b namespace) m
  = (merge_steps (steps_of b namespace qs) m, []).
Proof.
  intros Hall. revert m.
  induction Hall as [|q qs [rs Hrs] Hall IH]; intros m; [reflexivity|].
  cbn. rewrite collect_metric_type_unfold, Hrs.
  unfold merge_steps, steps_of in *. cbn [fmap list_fmap concat].
  rewrite for_result_app, for_result_fmap. unfold answered at 1. rewrite Hrs.
  cbn [fst snd].
  destruct (for_result rs _ m) as [m1|e]; unfold bind; cbn; [|reflexivity].
  by rewrite IH.
Qed.

Lemma for_io_collect_returns b namespace qs m m' lg :
  for_io qs (collect_metric_type b namespace) m = (Return m', lg) →
  merge_steps (steps_of b namespace qs) m = Return m' ∧ lg = [].
Proof.
  intros Hret.
  assert (Forall (λ q, ∃ rs, fetch b (namespaced q.2 namespace) = Return rs) qs)
    as Hall.
  { apply Forall_forall. intros q Hin.
    destruct (fetch b (namespaced q.2 namespace)) as [rs|e] eqn:Hf; [eauto|].
    destruct (for_io_collect_raises _ _ _ _ _ m Hin Hf) as (e' & lg' & Hr).
    congruence. }
  rewrite (for_io_collect_answered _ _ _ _ Hall) in Hret.
  by injection Hret as -> <-.
Qed.

Lemma get_all_container_metrics_unfold b namespace limit :
  get_all_container_metrics b namespace limit
  = let r := for_io queries (collect_metric_type b namespace) [] in
    match r.1 with
    | Return m =>
        let containers := slice_to (dict_values m) limit in
        (Return containers,
         r.2 ++ [(INFO, AllContainerCollectionCompleted (length containers))])
    | Raise e => (Raise e, r.2 ++ [(ERROR, AllContainerCollectionFailed e)])
    end.
Proof.
  unfold get_all_container_metrics, try_except, bind, ret, raise, log.
  destruct (for_io queries _ []) as [[m|e] lg]; reflexivity.
Qed.

(** A pass that returns ran all its steps, and hands out the values of the
    map it built, cut at [limit]. *)
Lemma pass_returns b namespace limit recs lg :
  get_all_container_metrics b namespace limit = (Return recs, lg) →
  ∃ m, merge_steps (pass_steps b namespace) [] = Return m ∧
       recs = slice_to m.*2 limit ∧
       NoDup m.*1 ∧
       (∀ k r, dict_get k m = Some r → record_key r = k).
Proof.
  rewrite get_all_container_metrics_unfold. cbn zeta.
  destruct (for_io queries _ []) as [[m|e] lg0] eqn:Hio; cbn; [|done].
  intros [= <- _]. apply for_io_collect_returns in Hio as [Hm _].
  exists m. split; [done|]. split; [reflexivity|]. split.
  - rewrite (merge_steps_keys _ _ _ Hm). apply first_appearance_NoDup. constructor.
  - apply (merge_steps_record_key _ [] m ltac:(discriminate) Hm).
Qed.

Lemma slice_to_subseteq {A} (l : list A) n x : x ∈ slice_to l n → x ∈ l.
Proof.
  unfold slice_to. destruct (0 <=? n); intros Hx;
    by apply (subseteq_take _ l) in Hx.
Qed.

(** A record of the output is the one the map holds under the record's
    key. *)
Lemma pass_record b namespace limit recs lg r :
  get_all_container_metrics b namespace limit = (Return recs, lg) →
  r ∈ recs →
  ∃ m, merge_steps (pass_steps b namespace) [] = Return m ∧
       dict_get (record_key r) m = Some r.
Proof.
  intros (m & Hm & -> & Hnd & Hkey)%pass_returns Hr%slice_to_subseteq.
  exists m. split; [done|].
  apply list_elem_of_fmap in Hr as ([k r'] & -> & Hin). cbn.
  apply dict_elem_get in Hin; [|done].
  by rewrite (Hkey _ _ Hin).
Qed.

(** ** The container pass: failure of one query *)

(** C1 (the code departs from it). When one of the five queries fails, the
    pass raises, whatever the other four answer: the loop over the metric
    types has no handler of its own, unlike the loop of
    [_enrich_node_metrics]. *)
Theorem failed_query_aborts_pass b namespace limit q e :
  q ∈ queries →
  fetch b (namespaced q.2 namespace) = Raise e →
  ∃ e' lg,
    get_all_container_metrics b namespace limit = (Raise e', lg) ∧
    (ERROR, AllContainerCollectionFailed e') ∈ lg.
Proof.
  intros Hin Hf. rewrite get_all_container_metrics_unfold. cbn zeta.
  destruct (for_io_collect_raises b namespace queries q e [] Hin Hf)
    as (e' & lg & ->).
  exists e', (lg ++ [(ERROR, AllContainerCollectionFailed e')]).
  split; [reflexivity|]. apply elem_of_app. right. left.
Qed.

Lemma failed_query_aborts_pass_witness :
  ∃ e' lg,
    get_all_container_metrics cpu_query_down None 100 = (Raise e', lg) ∧
    (ERROR, AllContainerCollectionFailed e') ∈ lg.
Proof.
  apply (failed_query_aborts_pass cpu_query_down None 100
           ("cpu", "kepler_container_cpu_joules_total")
           (ClientResponseError 500)).
  - right. left.
  - reflexivity.
Defined.

(** With exactly the cpu query failing and the other four answering, the
    pass raises the error of the cpu query and returns no record. *)
Example cpu_query_down_raises :
  get_all_container_metrics cpu_query_down None 100
  = (Raise (ClientResponseError 500),
     [ (ERROR, QueryFailed "kepler_container_cpu_joules_total"
                 (ClientResponseError 500));
       (ERROR, AllContainerCollectionFailed (ClientResponseError 500)) ]).
Proof. vm_compute. reflexivity. Qed.

(** ** The container pass: the total *)

Lemma omap_none {A B} (f : A → option B) (l : list A) :
  (∀ x, x ∈ l → f x = None) → omap f l = [].
Proof.
  induction l as [|x l IH]; intros Hf; cbn; [reflexivity|].
  rewrite (Hf x) by left. apply IH. intros y Hy. apply Hf. by right.
Qed.

Lemma omap_fmap {A B C} (g : A → B) (f : B → option C) (l : list A) :
  omap f (g <$> l) = omap (f ∘ g) l.
Proof.
  induction l as [|x l IH]; cbn; [reflexivity|]. by rewrite IH.
Qed.

Lemma assigned_none k a steps :
  (∀ st, st ∈ steps → key_of (metric st.2) = k → power_attr st.1 ≠ a) →
  assigned k a steps = None.
Proof.
  intros Hno. unfold assigned. rewrite omap_none; [reflexivity|].
  intros st Hin. unfold assignment.
  destruct (usable st.2); cbn; [|reflexivity].
  case_bool_decide as Hk; cbn; [|reflexivity].
  by rewrite bool_decide_eq_false_2 by (by apply Hno).
Qed.

Lemma assignment_other_type k a mt s :
  power_attr mt ≠ a → assignment k a (mt, s) = None.
Proof.
  intros Hne. unfold assignment. cbn [fst snd].
  rewrite (bool_decide_eq_false_2 _ Hne). by rewrite andb_false_r.
Qed.

Lemma steps_of_cons b namespace q qs :
  steps_of b namespace (q :: qs)
  = (pair q.1 <$> answered b namespace q.2) ++ steps_of b namespace qs.
Proof. reflexivity. Qed.

(** Only the steps of the total query assign [total_power_joules]. *)
Lemma assigned_total b namespace k :
  assigned k "total_power_joules" (pass_steps b namespace)
  = direct_total b namespace k.
Proof.
  unfold assigned, pass_steps, direct_total, queries.
  rewrite !steps_of_cons. cbn [fst snd].
  rewrite !omap_app, (omap_fmap (pair "total")).
  rewrite !(omap_none _ (pair _ <$> _)), !app_nil_r; [reflexivity|..];
    intros st [s [-> _]]%list_elem_of_fmap;
    apply assignment_other_type; vm_compute; discriminate.
Qed.

(** C2, as the claim states it, fails where no direct total exists: the
    pass computes no sum of the components.  With cpu = 4 and gpu = 3 and no
    series of the total query, the record has no total at all (0.0 by the
    default of the data model), not 7. *)
Lemma total_is_never_the_component_sum :
  ∃ r lg,
    get_all_container_metrics components_only None 100 = (Return [r], lg) ∧
    direct_total components_only None (record_key r) = None ∧
    ContainerPowerData.component "cpu" r = 4%float ∧
    ContainerPowerData.component "gpu" r = 3%float ∧
    ContainerPowerData.attrs r !! "total_power_joules" = None ∧
    ContainerPowerData.power_joules r = 0%float ∧
    ContainerPowerData.component "total" r
      ≠ (ContainerPowerData.component "cpu" r
         + ContainerPowerData.component "gpu" r)%float.
Proof.
  eexists _, _. split; [vm_compute; reflexivity|].
  repeat split; try (vm_compute; reflexivity).
  intros H. apply (f_equal PrimFloat.is_zero) in H. vm_compute in H.
  discriminate.
Qed.

(** C2 (amended). For every record of a pass that returns, the attribute
    [total_power_joules] is the direct total of the record's key (the value
    of the last usable series of the total query with that key) when there
    is one, and is not assigned when there is none; it is never computed
    from the components. *)
Theorem total_is_the_direct_value b namespace limit recs lg r :
  get_all_container_metrics b namespace limit = (Return recs, lg) →
  r ∈ recs →
  ContainerPowerData.attrs r !! "total_power_joules"
    = direct_total b namespace (record_key r) ∧
  ContainerPowerData.component "total" r
    = default 0%float (direct_total b namespace (record_key r)).
Proof.
  intros Hret Hr.
  destruct (pass_record _ _ _ _ _ _ Hret Hr) as (m & Hm & Hget).
  pose proof (merge_steps_attr _ _ _ (record_key r) "total_power_joules" Hm)
    as Ha.
  rewrite assigned_total in Ha. unfold attr_of in Ha. rewrite Hget in Ha.
  cbn in Ha.
  assert (ContainerPowerData.attrs r !! "total_power_joules"
          = direct_total b namespace (record_key r)) as Heq.
  { rewrite Ha. by destruct (direct_total _ _ _). }
  split; [done|]. unfold ContainerPowerData.component.
  by rewrite <- Heq.
Qed.

Lemma total_is_the_direct_value_witness :
  ∃ r lg,
    get_all_container_metrics later_cpu_sample None 100 = (Return [r], lg) ∧
    ContainerPowerData.attrs r !! "total_power_joules"
      = direct_total later_cpu_sample None (record_key r) ∧
    ContainerPowerData.component "total" r = 10%float ∧
    ContainerPowerData.component "cpu" r = 4%float.
Proof.
  eexists _, _. split; [vm_compute; reflexivity|].
  split; [|split; vm_compute; reflexivity].
  eapply (total_is_the_direct_value later_cpu_sample None 100).
  - vm_compute. reflexivity.
  - left.
Defined.

(** ** The container pass: monotonic merge *)

(** C3, as the claim states it, fails when two steps of one metric type
    target one key: the cpu query answers with two series of the container
    [web] that differ in the label [mode] only, and the second step
    replaces the cpu value 5 that the first step set by 6. *)
Lemma same_type_step_overwrites :
  ∃ m1 m2 r1 r2,
    key_of (metric cpu_5) = key_of (metric cpu_6_idle) ∧
    merge_steps [("cpu", cpu_5)] [] = Return m1 ∧
    merge_steps [("cpu", cpu_6_idle)] m1 = Return m2 ∧
    dict_get (key_of web) m1 = Some r1 ∧
    dict_get (key_of web) m2 = Some r2 ∧
    ContainerPowerData.attrs r1 !! "cpu_power_joules" = Some 5%float ∧
    ContainerPowerData.attrs r2 !! "cpu_power_joules" = Some 6%float.
Proof. eexists _, _, _, _. repeat split; vm_compute; reflexivity. Qed.

(** C3 (amended). Along every sequence of merge steps, a record that
    exists keeps the fields it was created with, and each attribute of it
    holds the value of the last step of its own key and metric type, or is
    as it was when no such step ran: a step writes the attribute of its
    metric type only, an attribute that is set is never cleared, and no step
    of another metric type overwrites it. *)
Theorem merge_is_monotonic steps m m' k r :
  merge_steps steps m = Return m' →
  dict_get k m = Some r →
  ∃ r',
    dict_get k m' = Some r' ∧
    shell r' = shell r ∧
    (∀ a, ContainerPowerData.attrs r' !! a
          = match assigned k a steps with
            | Some v => Some v
            | None => ContainerPowerData.attrs r !! a
            end) ∧
    (∀ a, is_Some (ContainerPowerData.attrs r !! a) →
          is_Some (ContainerPowerData.attrs r' !! a)) ∧
    (∀ a, (∀ st, st ∈ steps → key_of (metric st.2) = k → power_attr st.1 ≠ a) →
          ContainerPowerData.attrs r' !! a = ContainerPowerData.attrs r !! a).
Proof.
  intros Hm Hr.
  destruct (merge_steps_shell _ _ _ _ _ Hm Hr) as (r' & Hr' & Hs).
  assert (∀ a, ContainerPowerData.attrs r' !! a
               = match assigned k a steps with
                 | Some v => Some v
                 | None => ContainerPowerData.attrs r !! a
                 end) as Hattr.
  { intros a. pose proof (merge_steps_attr _ _ _ k a Hm) as Ha.
    unfold attr_of in Ha. by rewrite Hr, Hr' in Ha. }
  exists r'. split_and!; try done.
  - intros a Hsome. rewrite Hattr. by destruct (assigned k a steps).
  - intros a Hno. by rewrite Hattr, assigned_none.
Qed.

Lemma merge_is_monotonic_witness :
  ∃ r',
    dict_get (key_of web)
      [(key_of web,
        ContainerPowerData.setattr "total_power_joules" 10 web_after_cpu)]
    = Some r' ∧
    shell r' = shell web_after_cpu ∧
    (∀ a, ContainerPowerData.attrs r' !! a
          = match assigned (key_of web) a [("total", total_10)] with
            | Some v => Some v
            | None => ContainerPowerData.attrs web_after_cpu !! a
            end) ∧
    (∀ a, is_Some (ContainerPowerData.attrs web_after_cpu !! a) →
          is_Some (ContainerPowerData.attrs r' !! a)) ∧
    (∀ a, (∀ st, st ∈ [("total", total_10)] →
                 key_of (metric st.2) = key_of web → power_attr st.1 ≠ a) →
          ContainerPowerData.attrs r' !! a
          = ContainerPowerData.attrs web_after_cpu !! a).
Proof.
  apply (merge_is_monotonic [("total", total_10)]
           [(key_of web, web_after_cpu)]);
    vm_compute; reflexivity.
Defined.

(** Merging [{cpu: 5}] and then [{total: 10}] for one key gives a record
    with cpu = 5 and total = 10. *)
Example merge_cpu_then_total :
  ∃ r,
    merge_steps [("cpu", cpu_5); ("total", total_10)] []
    = Return [(key_of web, r)] ∧
    ContainerPowerData.attrs r !! "cpu_power_joules" = Some 5%float ∧
    ContainerPowerData.attrs r !! "total_power_joules" = Some 10%float.
Proof. eexists. repeat split; vm_compute; reflexivity. Qed.

(** ** The container pass: the timestamp *)

(** C4, as the claim states it, fails: the record of [web] is created from
    the sample of the total query, stamped 100, and keeps that timestamp
    when the cpu sample, stamped 200, contributes its value. *)
Lemma timestamp_is_not_the_most_recent :
  ∃ r lg s,
    get_all_container_metrics later_cpu_sample None 100 = (Return [r], lg) ∧
    ("cpu", s) ∈ pass_steps later_cpu_sample None ∧
    key_of (metric s) = record_key r ∧
    value s = [Numeric 200; Numeric 4] ∧
    ContainerPowerData.attrs r !! "cpu_power_joules" = Some 4%float ∧
    ContainerPowerData.timestamp r = 100%float ∧
    PrimFloat.ltb (ContainerPowerData.timestamp r) 200 = true.
Proof.
  eexists _, _, (instant web 200 4).
  split; [vm_compute; reflexivity|].
  split; [right; left|].
  repeat split; vm_compute; reflexivity.
Qed.

(** C4 (amended). For every record of a pass that returns, the timestamp
    is the one of the first usable sample of the record's key, in the order
    of the pass: the sample the record was created from. *)
Theorem timestamp_is_the_first_seen b namespace limit recs lg r :
  get_all_container_metrics b namespace limit = (Return recs, lg) →
  r ∈ recs →
  ∃ mt s t,
    first_seen (record_key r) (pass_steps b namespace) = Some (mt, s) ∧
    value s !! 0%nat = Some (Numeric t) ∧
    ContainerPowerData.timestamp r = t.
Proof.
  intros Hret Hr.
  destruct (pass_record _ _ _ _ _ _ Hret Hr) as (m & Hm & Hget).
  destruct (merge_steps_created _ _ _ _ _ Hm eq_refl Hget)
    as (mt & s & t & Hfirst & Ht & _ & Hs).
  exists mt, s, t. split_and!; [done..|].
  by injection Hs.
Qed.

Lemma timestamp_is_the_first_seen_witness :
  ∃ mt s t,
    first_seen (record_key web_total_cpu) (pass_steps later_cpu_sample None)
    = Some (mt, s) ∧
    value s !! 0%nat = Some (Numeric t) ∧
    ContainerPowerData.timestamp web_total_cpu = t.
Proof.
  apply (timestamp_is_the_first_seen later_cpu_sample None 100
           [web_total_cpu] [(INFO, AllContainerCollectionCompleted 1)]).
  - vm_compute. reflexivity.
  - left.
Defined.

(** ** The container pass: the limit *)

(** C10, as the claim states it, fails for a negative limit, which the
    endpoint passes through unchecked: [[:limit]] then drops records from
    the end, and the pass over two containers with limit -1 returns one
    record. *)
Lemma negative_limit_returns_records :
  ∃ recs lg,
    get_all_container_metrics two_containers None (-1) = (Return recs, lg) ∧
    record_key <$> recs = [key_of web] ∧
    ¬ (Z.of_nat (length recs) ≤ -1).
Proof.
  eexists _, _. split; [vm_compute; reflexivity|].
  split; [vm_compute; reflexivity|]. cbn. lia.
Qed.

Lemma record_keys_of_map (m : list (container_key * ContainerPowerData.t)) :
  NoDup m.*1 →
  (∀ k r, dict_get k m = Some r → record_key r = k) →
  record_key <$> m.*2 = m.*1.
Proof.
  intros Hnd Hkey. rewrite <- list_fmap_compose.
  apply list_eq_Forall2, Forall2_fmap, Forall_Forall2_diag, Forall_forall.
  intros [k r] Hin. cbn. apply Hkey. by apply dict_elem_get.
Qed.

(** C10 (amended). With a limit that is not negative, a pass that returns
    hands out at most [limit] records: the first [limit] keys in the order
    of their first appearance among the usable series of the pass. *)
Theorem limit_keeps_the_first_records b namespace limit recs lg :
  0 ≤ limit →
  get_all_container_metrics b namespace limit = (Return recs, lg) →
  Z.of_nat (length recs) ≤ limit ∧
  record_key <$> recs
  = take (Z.to_nat limit)
         (first_appearance [] (usable_keys (pass_steps b namespace))).
Proof.
  intros Hlimit (m & Hm & -> & Hnd & Hkey)%pass_returns.
  unfold slice_to. rewrite (proj2 (Z.leb_le 0 limit) Hlimit). split.
  - rewrite length_take. lia.
  - rewrite fmap_take, (record_keys_of_map m Hnd Hkey).
    by rewrite (merge_steps_keys _ _ _ Hm).
Qed.

Lemma limit_keeps_the_first_records_witness :
  Z.of_nat (length [web_total]) ≤ 1 ∧
  record_key <$> [web_total]
  = take (Z.to_nat 1)
         (first_appearance [] (usable_keys (pass_steps two_containers None))).
Proof.
  apply (limit_keeps_the_first_records two_containers None 1 [web_total]
           [(INFO, AllContainerCollectionCompleted 1)]).
  - lia.
  - vm_compute. reflexivity.
Defined.

(** With the default limit both containers are returned, in the order of
    the response. *)
Example two_containers_in_order :
  ∃ recs lg,
    get_all_container_metrics two_containers None default_limit
    = (Return recs, lg) ∧
    record_key <$> recs = [key_of web; key_of db].
Proof. eexists _, _. split; vm_compute; reflexivity. Qed.

(** ** The ranged container query: the last sample *)




(** The record is the point read (30, 9), not the mean 4 of the window. *)
Example windowed_reads_the_last_sample :
  ∃ r lg,
    get_container_power_metrics windowed None None "5m" = (Return [r], lg) ∧
    ContainerPowerData.power_joules r = 9%float ∧
    ContainerPowerData.timestamp r = 30%float.
Proof. eexists _, _. repeat split; vm_compute; reflexivity. Qed.

(** ** The node pass *)

Lemma keeps_refl P n : keeps P n n.
Proof. by split. Qed.

Lemma keeps_trans P n1 n2 n3 : keeps P n1 n2 → keeps P n2 n3 → keeps P n1 n3.
Proof.
  intros [Ha1 Hb1] [Ha2 Hb2]. split; [congruence|].
  intros a Ha. by rewrite Hb2, Hb1.
Qed.

Lemma keeps_weaken (P Q : string → Prop) n n' :
  (∀ a, P a → Q a) → keeps P n n' → keeps Q n n'.
Proof. intros HPQ [Ha Hb]. split; [done|]. intros a Hq. apply Hb. auto. Qed.

Lemma Forall2_keeps_refl P nodes : Forall2 (keeps P) nodes nodes.
Proof. apply Forall_Forall2_diag, Forall_forall. intros. apply keeps_refl. Qed.

Lemma Forall2_keeps_trans P l1 l2 l3 :
  Forall2 (keeps P) l1 l2 → Forall2 (keeps P) l2 l3 → Forall2 (keeps P) l1 l3.
Proof.
  intros H12. revert l3. induction H12 as [|x y l1 l2 Hxy H12 IH]; intros l3 H23.
  - by inversion H23.
  - inversion H23 as [|y' z l2' l3' Hyz H23']; subst.
    constructor; [by eapply keeps_trans|auto].
Qed.

Lemma Forall2_keeps_alter P a v i nodes :
  P a →
  Forall2 (keeps P) nodes (alter (NodePowerData.setattr a v) i nodes).
Proof.
  intros HP. revert i. induction nodes as [|n nodes IH]; intros i; [constructor|].
  destruct i as [|i]; cbn.
  - constructor; [|apply Forall2_keeps_refl].
    split; [reflexivity|]. intros a' Ha'. cbn.
    apply lookup_insert_ne. by intros ->.
  - constructor; [apply keeps_refl|apply IH].
Qed.

(** One step of a component loop changes, at most, the attribute of the
    component. *)
Lemma set_component_keeps node_map component s nodes nodes' :
  set_component node_map component s nodes = Return nodes' →
  Forall2 (keeps (λ a, a = power_attr component)) nodes nodes'.
Proof.
  unfold set_component. case_bool_decide; [|intros [= <-]; apply Forall2_keeps_refl].
  destruct (node_map !! _) as [i|]; [|intros [= <-]; apply Forall2_keeps_refl].
  destruct (py_index (value s) 1) as [x|e]; cbn; [|done].
  destruct (py_float x) as [v|e]; cbn; [|done].
  intros [= <-]. by apply Forall2_keeps_alter.
Qed.

Lemma for_mut_keeps node_map component rs nodes nodes' err :
  for_mut rs (set_component node_map component) nodes = (nodes', err) →
  Forall2 (keeps (λ a, a = power_attr component)) nodes nodes'.
Proof.
  revert nodes. induction rs as [|s rs IH]; intros nodes; cbn.
  - intros [= <- _]. apply Forall2_keeps_refl.
  - destruct (set_component node_map component s nodes) as [nodes1|e] eqn:Hs.
    + intros Hrest. eapply Forall2_keeps_trans; [|by apply IH].
      by eapply set_component_keeps.
    + intros [= <- _]. apply Forall2_keeps_refl.
Qed.

Lemma enrich_component_unfold b node_map component query nodes :
  enrich_component b node_map (component, query) nodes
  = match fetch b query with
    | Return rs =>
        match for_mut rs (set_component node_map component) nodes with
        | (nodes', None) => (Return nodes', [])
        | (nodes', Some e) =>
            (Return nodes', [(WARNING, NodeComponentFailed component e)])
        end
    | Raise e =>
        (Return nodes,
         fetch_log b query ++ [(WARNING, NodeComponentFailed component e)])
    end.
Proof.
  unfold enrich_component. rewrite instant_query_fetch. cbn [fst snd].
  destruct (fetch b query) as [rs|e] eqn:Hf; [|reflexivity].
  by rewrite (fetch_log_return _ _ _ Hf).
Qed.

(** The loop over one component never raises; it changes the attribute of
    its component only, and only when its query was answered; a failed query
    leaves a warning. *)
Lemma enrich_component_spec b node_map component query nodes :
  ∃ nodes' lg,
    enrich_component b node_map (component, query) nodes = (Return nodes', lg) ∧
    Forall2 (keeps (λ a, a = power_attr component ∧
                         ∃ rs, fetch b query = Return rs)) nodes nodes' ∧
    ∀ e, fetch b query = Raise e →
         (WARNING, NodeComponentFailed component e) ∈ lg.
Proof.
  rewrite enrich_component_unfold.
  destruct (fetch b query) as [rs|e] eqn:Hf.
  - destruct (for_mut rs _ nodes) as [nodes' [e|]] eqn:Hmut;
      (eexists _, _; split; [reflexivity|]; split; [|done]);
      (eapply Forall2_impl; [by eapply for_mut_keeps|]);
      intros n n'; apply keeps_weaken; eauto.
  - eexists _, _. split; [reflexivity|]. split; [apply Forall2_keeps_refl|].
    intros e' [= <-]. apply elem_of_app. right. left.
Qed.

(** The loop over the components. *)
Lemma enrich_loop_spec b node_map qs nodes :
  ∃ nodes' lg,
    for_io qs (enrich_component b node_map) nodes = (Return nodes', lg) ∧
    Forall2 (keeps (λ a, ∃ c q rs, (c, q) ∈ qs ∧ a = power_attr c ∧
                                   fetch b q = Return rs)) nodes nodes' ∧
    ∀ c q e, (c, q) ∈ qs → fetch b q = Raise e →
             (WARNING, NodeComponentFailed c e) ∈ lg.
Proof.
  revert nodes. induction qs as [|[c q] qs IH]; intros nodes.
  - exists nodes, []. split; [reflexivity|]. split; [apply Forall2_keeps_refl|].
    intros ? ? ? []%elem_of_nil.
  - destruct (enrich_component_spec b node_map c q nodes)
      as (nodes1 & lg1 & Hone & Hkeep1 & Hlog1).
    destruct (IH nodes1) as (nodes' & lg & Hrest & Hkeep & Hlog).
    exists nodes', (lg1 ++ lg). split_and!.
    + cbn [for_io]. unfold bind. rewrite Hone. cbn. by rewrite Hrest.
    + eapply Forall2_keeps_trans.
      * eapply Forall2_impl; [exact Hkeep1|]. intros n n'. apply keeps_weaken.
        intros a [-> [rs Hrs]]. exists c, q, rs. split; [left|done].
      * eapply Forall2_impl; [exact Hkeep|]. intros n n'. apply keeps_weaken.
        intros a (c' & q' & rs & Hin & -> & Hrs). exists c', q', rs.
        split; [by right|done].
    + intros c' q' e [[= -> ->]|Hin]%elem_of_cons Hf; apply elem_of_app.
      * left. by apply Hlog1.
      * right. by eapply Hlog.
Qed.

(** The records of the platform query start without any component. *)
Lemma platform_records_bare rs acc nodes :
  for_result rs platform_record acc = Return nodes →
  Forall (λ n, NodePowerData.attrs n = ∅) acc →
  Forall (λ n, NodePowerData.attrs n = ∅) nodes.
Proof.
  revert acc. induction rs as [|s rs IH]; intros acc; cbn.
  - by intros [= <-].
  - destruct (platform_record s acc) as [acc1|e] eqn:Hs; cbn; [|done].
    intros Hrest Hacc. apply (IH acc1 Hrest).
    revert Hs. unfold platform_record. case_bool_decide; [|by intros [= <-]].
    destruct (py_index (value s) 1) as [x|?]; cbn; [|done].
    destruct (py_float x) as [v|?]; cbn; [|done].
    destruct (py_index (value s) 0) as [x0|?]; cbn; [|done].
    destruct (py_float x0) as [t|?]; cbn; [|done].
    destruct (fromtimestamp t) as [ts|?]; cbn; [|done].
    intros [= <-]. apply Forall_app. split; [done|]. by repeat constructor.
Qed.


Lemma get_node_power_metrics_unfold b :
  get_node_power_metrics b
  = match fetch b platform_query with
    | Raise e =>
        (Raise e,
         fetch_log b platform_query ++ [(ERROR, NodeCollectionFailed e)])
    | Return rs =>
        match for_result rs platform_record [] with
        | Raise e => (Raise e, [(ERROR, NodeCollectionFailed e)])
        | Return nodes =>
            let r := _enrich_node_metrics b nodes in
            match r.1 with
            | Return nodes' =>
                (Return nodes',
                 r.2 ++ [(INFO, NodeCollectionCompleted (length nodes'))])
            | Raise e => (Raise e, r.2 ++ [(ERROR, NodeCollectionFailed e)])
            end
        end
    end.
Proof.
  unfold get_node_power_metrics. rewrite query_bind.
  destruct (fetch b platform_query) as [rs|e] eqn:Hf; [|reflexivity].
  rewrite (fetch_log_return _ _ _ Hf).
  generalize (_enrich_node_metrics b). intros enrich.
  unfold try_except, bind, lift, ret, raise, log; cbn.
  destruct (for_result rs platform_record []) as [nodes|e]; cbn; [|reflexivity].
  destruct (enrich nodes) as [[nodes'|e] lg]; reflexivity.
Qed.



(** The pass over [node_cpu_down]: the platform record is returned with the
    dram component; the cpu failure is a warning in the log. *)
Example node_cpu_down_returns :
  ∃ n lg,
    get_node_power_metrics node_cpu_down = (Return [n], lg) ∧
    anchor n = ("node-1", 50%float, 100%float, node_1) ∧
    NodePowerData.attrs n !! "cpu_power_joules" = None ∧
    NodePowerData.attrs n !! "dram_power_joules" = Some 7%float ∧
    lg = [ (WARNING, NodeComponentFailed "cpu" TimeoutError);
           (INFO, NodeCollectionCompleted 1) ].
Proof. eexists _, _. repeat split; vm_compute; reflexivity. Qed.

(** When the platform query fails, the pass raises its exception. *)
Example platform_query_down_raises :
  get_node_power_metrics platform_down
  = (Raise ClientConnectionError,
     [ (ERROR, QueryFailed "kepler_node_platform_joules_total"
                 ClientConnectionError);
       (ERROR, NodeCollectionFailed ClientConnectionError) ]).
Proof. vm_compute. reflexivity. Qed.


(** ** Further properties of the client *)



(** A token without a recognized suffix is the default of 5 minutes. *)
Theorem parse_time_range_default s :
  endswith s "m" = false → endswith s "h" = false → endswith s "d" = false →
  _parse_time_range s = Return (Timedelta 0 300).
Proof. unfold _parse_time_range. by intros -> -> ->. Qed.

Lemma parse_time_range_default_witness :
  _parse_time_range "5 minutes" = Return (Timedelta 0 300).
Proof. apply (parse_time_range_default "5 minutes"); reflexivity. Defined.

(** The key of a label set depends on the three recognized labels only,
    and a label set without them has the key of three "unknown". *)
Theorem key_of_recognized_labels (m1 m2 : gmap string string) :
  m1 !! "container_name" = m2 !! "container_name" →
  m1 !! "pod_name" = m2 !! "pod_name" →
  m1 !! "container_namespace" = m2 !! "container_namespace" →
  key_of m1 = key_of m2 ∧
  key_of (∅ : gmap string string) = ("unknown", "unknown", "unknown").
Proof.
  intros H1 H2 H3. split; [|reflexivity].
  unfold key_of, label. by rewrite H1, H2, H3.
Qed.

Lemma key_of_recognized_labels_witness :
  key_of (metric cpu_5) = key_of (metric cpu_6_idle) ∧
  key_of (∅ : gmap string string) = ("unknown", "unknown", "unknown").
Proof.
  apply (key_of_recognized_labels (metric cpu_5) (metric cpu_6_idle));
    vm_compute; reflexivity.
Defined.

(** A pass whose five queries are all answered with no series returns the
    empty list, and does not raise. *)
Theorem empty_pass_returns_nothing b namespace limit :
  (∀ q, q ∈ queries → fetch b (namespaced q.2 namespace) = Return []) →
  get_all_container_metrics b namespace limit
  = (Return [], [(INFO, AllContainerCollectionCompleted 0)]).
Proof.
  intros Hempty. rewrite get_all_container_metrics_unfold.
  rewrite for_io_collect_answered
    by (apply Forall_forall; intros q Hq; eauto).
  assert (steps_of b namespace queries = []) as ->.
  { unfold steps_of. generalize queries, Hempty. intros qs Hqs.
    induction qs as [|q qs IH]; [reflexivity|]. cbn.
    unfold answered at 1. rewrite (Hqs q) by left. cbn.
    apply IH. intros q' Hq'. apply Hqs. by right. }
  cbn. unfold slice_to. by destruct (0 <=? limit); rewrite take_nil.
Qed.

Lemma empty_pass_returns_nothing_witness :
  get_all_container_metrics (table_backend []) None 100
  = (Return [], [(INFO, AllContainerCollectionCompleted 0)]).
Proof.
  apply (empty_pass_returns_nothing (table_backend []) None 100).
  intros q _. reflexivity.
Defined.





(** ** Further properties: the queries and the ranged container pass *)

Lemma fromtimestamp_return t t' : fromtimestamp t = Return t' → t' = t.
Proof. unfold fromtimestamp. repeat case_match; congruence. Qed.

Lemma py_int_raises s e : py_int s = Raise e → e = ValueError.
Proof. unfold py_int. repeat case_match; congruence. Qed.

Lemma timedelta_of_seconds_raises n e :
  timedelta_of_seconds n = Raise e → e = OverflowError.
Proof. unfold timedelta_of_seconds. case_match; congruence. Qed.

(** The parser raises nothing but [ValueError] and [OverflowError]. *)
Lemma parse_time_range_errors t e :
  _parse_time_range t = Raise e → e = ValueError ∨ e = OverflowError.
Proof.
  unfold _parse_time_range, timedelta_minutes, timedelta_hours, timedelta_days.
  repeat case_match;
    try (intros ?%timedelta_of_seconds_raises; by right);
    (destruct (py_int _) as [z|e'] eqn:Hz; cbn;
     [intros ?%timedelta_of_seconds_raises; by right
     |apply py_int_raises in Hz; intros [= <-]; by left]).
Qed.




(** [_prometheus_query] logs one error line exactly when it raises an
    [aiohttp.ClientError]; it logs nothing when it returns, and nothing
    when it raises another exception. *)
Theorem query_logs_client_errors_only b query time_range :
  match (_prometheus_query b query time_range).1 with
  | Return _ => (_prometheus_query b query time_range).2 = []
  | Raise e =>
      (_prometheus_query b query time_range).2
      = if is_client_error e then [(ERROR, QueryFailed query e)] else []
  end.
Proof.
  unfold _prometheus_query, query_failed.
  set (range := match time_range with
                | Some (String _ _ as t) => _
                | _ => _
                end).
  assert (∀ e, range = Raise e → is_client_error e = false) as Hrange.
  { subst range. intros e. destruct time_range as [[|a t]|]; try done.
    destruct (_parse_time_range (String a t)) as [d|e'] eqn:Hp; cbn; [done|].
    intros [= <-]. by destruct (parse_time_range_errors _ _ Hp) as [->| ->]. }
  destruct range as [w|e]; cbn.
  - destruct (api b _) as [e|st [p|e]]; cbn.
    + destruct (is_client_error e) eqn:He; cbn; by rewrite ?He.
    + destruct (400 <=? st); reflexivity.
    + destruct (400 <=? st); [reflexivity|].
      destruct (is_client_error e) eqn:He; cbn; by rewrite ?He.
  - by rewrite (Hrange e eq_refl).
Qed.






Example truncated_sample_raises :
  get_container_power_metrics truncated_sample None None "5m"
  = (Raise IndexError, [(ERROR, ContainerCollectionFailed IndexError)]).
Proof. vm_compute. reflexivity. Qed.

(** ** Further properties: the container pass *)

Lemma slice_to_fmap {A B} (f : A → B) (l : list A) n :
  f <$> slice_to l n = slice_to (f <$> l) n.
Proof.
  unfold slice_to. rewrite length_fmap. destruct (0 <=? n); apply fmap_take.
Qed.




(** Every record of a pass keeps what it was created with: [power_joules]
    is the 0.0 of the constructor call, which no step assigns, and the node
    name and the labels are those of the first usable series of the
    record's key. *)
Theorem pass_records_keep_creation_fields b namespace limit recs lg r :
  get_all_container_metrics b namespace limit = (Return recs, lg) →
  r ∈ recs →
  ContainerPowerData.power_joules r = 0%float ∧
  ∃ mt s,
    first_seen (record_key r) (pass_steps b namespace) = Some (mt, s) ∧
    ContainerPowerData.node_name r = label (metric s) "instance" ∧
    ContainerPowerData.labels r = metric s.
Proof.
  intros Hret Hr.
  destruct (pass_record _ _ _ _ _ _ Hret Hr) as (m & Hm & Hget).
  destruct (merge_steps_created _ _ _ _ _ Hm eq_refl Hget)
    as (mt & s & t & Hfirst & _ & _ & Hs).
  pose proof (f_equal (λ x, x.1.1.2) Hs) as Hpower.
  pose proof (f_equal (λ x, x.1.1.1.2) Hs) as Hnode.
  pose proof (f_equal (λ x, x.2) Hs) as Hlabels.
  split; [done|]. by exists mt, s.
Qed.

Lemma pass_records_keep_creation_fields_witness :
  ContainerPowerData.power_joules web_total_cpu = 0%float ∧
  ∃ mt s,
    first_seen (record_key web_total_cpu) (pass_steps later_cpu_sample None)
    = Some (mt, s) ∧
    ContainerPowerData.node_name web_total_cpu = label (metric s) "instance" ∧
    ContainerPowerData.labels web_total_cpu = metric s.
Proof.
  apply (pass_records_keep_creation_fields later_cpu_sample None 100
           [web_total_cpu] [(INFO, AllContainerCollectionCompleted 1)]).
  - vm_compute. reflexivity.
  - left.
Defined.

Lemma assigned_Some k a steps v :
  assigned k a steps = Some v →
  ∃ st, st ∈ steps ∧ assignment k a st = Some v.
Proof.
  unfold assigned. intros Hlast.
  assert (v ∈ omap (assignment k a) steps) as Hin.
  { apply last_Some in Hlast as [l' ->]. apply elem_of_app. right. left. }
  by apply list_elem_of_omap in Hin.
Qed.

Lemma elem_of_steps_of b namespace qs mt s :
  (mt, s) ∈ steps_of b namespace qs →
  ∃ base, (mt, base) ∈ qs ∧ s ∈ answered b namespace base.
Proof.
  induction qs as [|[mt' base] qs IH]; [by intros ?%elem_of_nil|].
  rewrite steps_of_cons. cbn [fst snd].
  intros [Hin|Hin]%elem_of_app.
  - apply list_elem_of_fmap in Hin as (s' & [= -> ->] & Hs).
    exists base. split; [left|done].
  - destruct (IH Hin) as (base' & Hq & Hs). exists base'. split; [by right|done].
Qed.

(** The attributes of a record of a pass are never invented: each one is
    the attribute of one of the five metric types, and its value is the
    value of a usable series, with the key of the record, that the query of
    that metric type was answered with. *)
Theorem pass_attributes_come_from_series b namespace limit recs lg r a v :
  get_all_container_metrics b namespace limit = (Return recs, lg) →
  r ∈ recs →
  ContainerPowerData.attrs r !! a = Some v →
  ∃ mt base s,
    (mt, base) ∈ queries ∧ a = power_attr mt ∧
    s ∈ answered b namespace base ∧
    usable s = true ∧
    key_of (metric s) = record_key r ∧
    value s !! 1%nat = Some (Numeric v).
Proof.
  intros Hret Hr Ha.
  destruct (pass_record _ _ _ _ _ _ Hret Hr) as (m & Hm & Hget).
  pose proof (merge_steps_attr _ _ _ (record_key r) a Hm) as Hattr.
  assert (attr_of m (record_key r) a = Some v) as Hsome
    by (unfold attr_of; rewrite Hget; exact Ha).
  rewrite Hsome in Hattr.
  change (attr_of [] (record_key r) a) with (@None float) in Hattr.
  destruct (assigned (record_key r) a (pass_steps b namespace)) as [v'|] eqn:Has;
    [|discriminate Hattr].
  injection Hattr as ->.
  apply assigned_Some in Has as ([mt s] & Hin & Hassign).
  apply elem_of_steps_of in Hin as (base & Hq & Hs).
  unfold assignment in Hassign. cbn [fst snd] in Hassign.
  destruct (usable s) eqn:Hu; [|done]. cbn in Hassign.
  case_bool_decide as Hk; [|done]. cbn in Hassign.
  case_bool_decide as Hattr'; [|done].
  destruct (value s !! 1%nat) as [[x|]|] eqn:Hv; try done.
  injection Hassign as ->. by exists mt, base, s.
Qed.

Lemma pass_attributes_come_from_series_witness :
  ∃ mt base s,
    (mt, base) ∈ queries ∧ "cpu_power_joules" = power_attr mt ∧
    s ∈ answered later_cpu_sample None base ∧
    usable s = true ∧
    key_of (metric s) = record_key web_total_cpu ∧
    value s !! 1%nat = Some (Numeric 4%float).
Proof.
  apply (pass_attributes_come_from_series later_cpu_sample None 100
           [web_total_cpu] [(INFO, AllContainerCollectionCompleted 1)]
           web_total_cpu).
  - vm_compute. reflexivity.
  - left.
  - vm_compute. reflexivity.
Defined.

Lemma first_appearance_complete seen l k :
  k ∈ l → k ∈ seen ∨ k ∈ first_appearance seen l.
Proof.
  revert seen. induction l as [|k' l IH]; intros seen; [by intros ?%elem_of_nil|].
  intros [->|Hin]%elem_of_cons; cbn.
  - destruct (decide (k' ∈ seen)); [by left|right; left].
  - destruct (decide (k' ∈ seen)); [by apply IH|].
    destruct (IH (seen ++ [k']) Hin) as [[?| ->%list_elem_of_singleton]%elem_of_app|?].
    + by left.
    + right. left.
    + right. by right.
Qed.

(** With a limit that is not below the number of distinct keys, no
    container is lost: every usable series of an answered query has a
    record with its key in the output. *)
Theorem pass_covers_every_usable_series b namespace limit recs lg mt s :
  get_all_container_metrics b namespace limit = (Return recs, lg) →
  Z.of_nat (length (first_appearance []
                      (usable_keys (pass_steps b namespace)))) ≤ limit →
  (mt, s) ∈ pass_steps b namespace →
  usable s = true →
  ∃ r, r ∈ recs ∧ record_key r = key_of (metric s).
Proof.
  intros (m & Hm & -> & Hnd & Hkey)%pass_returns Hlimit Hin Hu.
  assert (key_of (metric s) ∈ record_key <$> slice_to m.*2 limit) as Hk.
  { rewrite slice_to_fmap, (record_keys_of_map m Hnd Hkey).
    rewrite (merge_steps_keys _ _ _ Hm). cbn [fmap list_fmap app].
    unfold slice_to. rewrite (proj2 (Z.leb_le 0 limit)) by lia.
    rewrite take_ge by lia.
    destruct (first_appearance_complete [] (usable_keys (pass_steps b namespace))
                (key_of (metric s))) as [[]%elem_of_nil|]; [|done].
    unfold usable_keys. apply list_elem_of_omap. exists (mt, s).
    split; [done|]. cbn. by rewrite Hu. }
  apply list_elem_of_fmap in Hk as (r & Hr & Hin'). eauto.
Qed.

Lemma pass_covers_every_usable_series_witness :
  ∃ r, r ∈ [web_total_cpu] ∧ record_key r = key_of (metric (instant web 200 4)).
Proof.
  apply (pass_covers_every_usable_series later_cpu_sample None 100
           [web_total_cpu] [(INFO, AllContainerCollectionCompleted 1)] "cpu").
  - vm_compute. reflexivity.
  - vm_compute. discriminate.
  - right. left.
  - reflexivity.
Defined.

(** ** Further properties: the node pass *)

Lemma platform_record_unfold s acc out :
  platform_record s acc = Return out →
  (usable s = false ∧ out = acc) ∨
  (usable s = true ∧ ∃ n, from_platform s n ∧ out = acc ++ [n]).
Proof.
  unfold platform_record. fold (usable s).
  destruct (usable s) eqn:Hu; [|intros [= <-]; by left].
  destruct (usable_index s Hu) as (x0 & x1 & H0 & H1).
  unfold py_index. rewrite H0, H1.
  destruct x1 as [v|]; cbn; [|done].
  destruct x0 as [t|]; cbn; [|done].
  destruct (fromtimestamp t) as [t'|] eqn:Ht; cbn; [|done].
  apply fromtimestamp_return in Ht as ->.
  intros [= <-]. right. split; [done|]. eexists. split; [|reflexivity].
  by exists t, v.
Qed.

Lemma platform_loop_spec rs acc nodes :
  for_result rs platform_record acc = Return nodes →
  ∃ new, nodes = acc ++ new ∧
         Forall2 from_platform (filter (λ s, usable s = true) rs) new.
Proof.
  revert acc. induction rs as [|s rs IH]; intros acc; cbn [for_result].
  - intros [= <-]. exists []. split; [by rewrite app_nil_r|constructor].
  - destruct (platform_record s acc) as [acc1|e] eqn:Hs; cbn [rbind]; [|done].
    intros (new & -> & Hnew)%IH. rewrite filter_cons.
    apply platform_record_unfold in Hs as [[Hu ->]|(Hu & n & Hn & ->)].
    + rewrite decide_False by (by rewrite Hu). eauto.
    + rewrite decide_True by done. exists (n :: new).
      split; [by rewrite <- app_assoc|]. by constructor.
Qed.

(** A node pass that returns splits into its three parts. *)
Lemma node_pass_returns b nodes' lg :
  get_node_power_metrics b = (Return nodes', lg) →
  ∃ rs nodes lg',
    fetch b platform_query = Return rs ∧
    for_result rs platform_record [] = Return nodes ∧
    _enrich_node_metrics b nodes = (Return nodes', lg').
Proof.
  rewrite get_node_power_metrics_unfold.
  destruct (fetch b platform_query) as [rs|e] eqn:Hf; [|done].
  destruct (for_result rs platform_record []) as [nodes|e] eqn:Hl; [|done].
  cbn zeta.
  destruct (_enrich_node_metrics b nodes) as [[nodes1|e] lg1] eqn:He; cbn;
    [|done].
  intros [= <- _]. by exists rs, nodes, lg1.
Qed.

(** A node pass returns one record for each usable series of the platform
    query, in the order of the response, whether or not two series name the
    same node; its name, platform value, timestamp and labels are those of
    its series.  A series of a component query never adds a record. *)
Theorem node_records_follow_the_platform_series b nodes' lg :
  get_node_power_metrics b = (Return nodes', lg) →
  ∃ rs,
    fetch b platform_query = Return rs ∧
    Forall2 (λ s n', ∃ t v,
               value s !! 0%nat = Some (Numeric t) ∧
               value s !! 1%nat = Some (Numeric v) ∧
               anchor n' = (label (metric s) "instance", v, t, metric s))
            (filter (λ s, usable s = true) rs) nodes'.
Proof.
  intros (rs & nodes & lg' & Hf & Hloop & Henrich)%node_pass_returns.
  exists rs. split; [done|].
  apply platform_loop_spec in Hloop as (new & Heq & Hnew).
  cbn in Heq. subst nodes.
  unfold _enrich_node_metrics in Henrich.
  destruct (enrich_loop_spec b (index_nodes 0 new ∅) component_queries new)
    as (nodes1 & lg1 & Hrun & Hkeep & _).
  rewrite Hrun in Henrich. injection Henrich as <- _.
  eapply Forall2_trans; [|exact Hnew|exact Hkeep].
  intros s n n' (t & v & H0 & H1 & ->) [Hanchor _].
  exists t, v. by rewrite Hanchor.
Qed.

Lemma node_records_follow_the_platform_series_witness :
  ∃ rs,
    fetch twice_node_1 platform_query = Return rs ∧
    Forall2 (λ s n', ∃ t v,
               value s !! 0%nat = Some (Numeric t) ∧
               value s !! 1%nat = Some (Numeric v) ∧
               anchor n' = (label (metric s) "instance", v, t, metric s))
            (filter (λ s, usable s = true) rs) [node_1_first; node_1_second].
Proof.
  apply (node_records_follow_the_platform_series twice_node_1
           [node_1_first; node_1_second]
           [(INFO, NodeCollectionCompleted 2)]).
  vm_compute. reflexivity.
Defined.

Lemma for_mut_invariant {A S} (I : S → Prop) (l : list A)
    (body : A → S → result S) s :
  I s →
  (∀ x s1 s2, x ∈ l → I s1 → body x s1 = Return s2 → I s2) →
  I (for_mut l body s).1.
Proof.
  revert s. induction l as [|x l IH]; intros s Hs Hstep; cbn; [done|].
  destruct (body x s) as [s1|e] eqn:Hb; cbn; [|done].
  apply IH.
  - eapply Hstep; [left|done..].
  - intros y s2 s3 Hy. apply Hstep. by right.
Qed.

Lemma set_component_unfold node_map component s nodes nodes' :
  set_component node_map component s nodes = Return nodes' →
  nodes' = nodes ∨
  (usable s = true ∧ ∃ i v,
     node_map !! label (metric s) "instance" = Some i ∧
     value s !! 1%nat = Some (Numeric v) ∧
     nodes' = alter (NodePowerData.setattr (power_attr component) v) i nodes).
Proof.
  unfold set_component. fold (usable s).
  destruct (usable s) eqn:Hu; [|intros [= <-]; by left].
  destruct (node_map !! _) as [i|] eqn:Hi; [|intros [= <-]; by left].
  unfold py_index. destruct (value s !! 1%nat) as [[v|]|] eqn:Hv; cbn; try done.
  intros [= <-]. right. split; [done|]. by exists i, v.
Qed.

(** An invariant of the steps of the answered component queries holds at
    the end of the loop over the components, which never raises. *)
Lemma enrich_loop_invariant (I : list NodePowerData.t → Prop) b node_map qs nodes :
  I nodes →
  (∀ c q rs s n1 n2,
     (c, q) ∈ qs → fetch b q = Return rs → s ∈ rs → I n1 →
     set_component node_map c s n1 = Return n2 → I n2) →
  ∃ nodes' lg,
    for_io qs (enrich_component b node_map) nodes = (Return nodes', lg) ∧
    I nodes'.
Proof.
  revert nodes. induction qs as [|[c q] qs IH]; intros nodes Hnodes Hstep.
  - by exists nodes, [].
  - assert (∃ nodes1 lg1,
              enrich_component b node_map (c, q) nodes = (Return nodes1, lg1) ∧
              I nodes1) as (nodes1 & lg1 & Hone & H1).
    { rewrite enrich_component_unfold.
      destruct (fetch b q) as [rs|e] eqn:Hf; [|eauto].
      pose proof (for_mut_invariant I rs (set_component node_map c) nodes Hnodes)
        as Hinv.
      destruct (for_mut rs _ nodes) as [nodes1 [e|]]; cbn in Hinv;
        (eexists _, _; split; [reflexivity|]; apply Hinv);
        intros s n1 n2 Hs; eapply Hstep; eauto; left. }
    destruct (IH nodes1 H1) as (nodes' & lg & Hrest & H').
    { intros c' q' rs s n1 n2 Hq. apply Hstep. by right. }
    exists nodes', (lg1 ++ lg). split; [|done].
    cbn [for_io]. unfold bind. rewrite Hone. cbn. by rewrite Hrest.
Qed.

(** [index_nodes] maps a name to the position of the last node with that
    name. *)
Lemma index_nodes_spec nodes (i0 : nat) acc name (i : nat) :
  index_nodes i0 nodes acc !! name = Some i →
  ((i0 ≤ i)%nat ∧
   ∃ n, nodes !! (i - i0)%nat = Some n ∧ NodePowerData.node_name n = name ∧
        ∀ j n', (i - i0 < j)%nat → nodes !! j = Some n' →
                NodePowerData.node_name n' ≠ name)
  ∨ (acc !! name = Some i ∧
     ∀ n', n' ∈ nodes → NodePowerData.node_name n' ≠ name).
Proof.
  revert i0 acc. induction nodes as [|n nodes IH]; intros i0 acc; cbn.
  - intros Hacc. right. split; [done|]. by intros ? ?%elem_of_nil.
  - intros [(Hle & n1 & Hn1 & Hname & Hlast)|[Hacc Hnone]]%IH.
    + left. split; [lia|]. exists n1. split_and!; [|done|].
      * replace (i - i0)%nat with (S (i - S i0)) by lia. done.
      * intros [|j] n' Hj; [lia|]. cbn. apply Hlast. lia.
    + destruct (decide (NodePowerData.node_name n = name)) as [Heq|Hne].
      * subst name. rewrite lookup_insert_eq in Hacc. injection Hacc as <-.
        left. split; [lia|]. exists n. rewrite Nat.sub_diag.
        split_and!; [done..|].
        intros [|j] n' Hj; [lia|]. cbn. intros Hn'. apply Hnone.
        by eapply list_elem_of_lookup_2.
      * rewrite lookup_insert_ne in Hacc by done. right. split; [done|].
        intros n' [->|Hin]%elem_of_cons; auto.
Qed.

Lemma index_nodes_last nodes name (i : nat) :
  index_nodes 0 nodes ∅ !! name = Some i →
  ∃ n, nodes !! i = Some n ∧ NodePowerData.node_name n = name ∧
       ∀ j n', (i < j)%nat → nodes !! j = Some n' →
               NodePowerData.node_name n' ≠ name.
Proof.
  intros [(_ & n & Hn & Hname & Hlast)|[Hacc _]]%index_nodes_spec.
  - rewrite Nat.sub_0_r in *. eauto.
  - by rewrite lookup_empty in Hacc.
Qed.

(** The enrichment writes through the dict of nodes by name, and of two
    records with one name the dict holds the later one: the earlier record
    of a node that the platform query returned twice never gets a
    component. *)
Theorem earlier_duplicate_node_gets_no_component b nodes' lg (i j : nat) n n' :
  get_node_power_metrics b = (Return nodes', lg) →
  (i < j)%nat →
  nodes' !! i = Some n →
  nodes' !! j = Some n' →
  NodePowerData.node_name n = NodePowerData.node_name n' →
  NodePowerData.attrs n = ∅.
Proof.
  intros (rs & nodes & lg' & Hf & Hloop & Henrich)%node_pass_returns
         Hij Hi Hj Hname.
  unfold _enrich_node_metrics in Henrich.
  set (node_map := index_nodes 0 nodes ∅) in *.
  destruct (enrich_loop_spec b node_map component_queries nodes)
    as (nodes1 & lg1 & Hrun & Hkeep & _).
  assert (nodes1 = nodes') as -> by congruence.
  destruct (enrich_loop_invariant
              (λ l, ∀ i n0, nodes !! i = Some n0 →
                            node_map !! NodePowerData.node_name n0 ≠ Some i →
                            l !! i = Some n0)
              b node_map component_queries nodes)
    as (nodes2 & lg2 & Hrun' & Hinv); [done| |].
  { intros c q rs' s n1 n2 _ _ _ Hn1
           [->|(_ & i' & v & Hi' & _ & ->)]%set_component_unfold; [done|].
    intros i0 n0 Hn0 Hmap. rewrite list_lookup_alter_ne; [by apply Hn1|].
    intros ->. destruct (index_nodes_last _ _ _ Hi') as (n0' & Hn0' & Hname0 & _).
    apply Hmap. assert (n0' = n0) as -> by congruence. by rewrite Hname0. }
  assert (nodes2 = nodes') as -> by congruence.
  destruct (Forall2_lookup_r _ _ _ _ _ Hkeep Hi) as (n0 & Hn0 & [Ha0 _]).
  destruct (Forall2_lookup_r _ _ _ _ _ Hkeep Hj) as (n0' & Hn0' & [Ha0' _]).
  assert (NodePowerData.node_name n0 = NodePowerData.node_name n0') as Hname0.
  { pose proof (f_equal (λ x, x.1.1.1) Ha0) as H1.
    pose proof (f_equal (λ x, x.1.1.1) Ha0') as H2. cbn in H1, H2. congruence. }
  assert (nodes' !! i = Some n0) as Hsame.
  { apply Hinv; [done|]. intros Hmap.
    apply index_nodes_last in Hmap as (_ & _ & _ & Hlast).
    by apply (Hlast j n0' Hij Hn0'). }
  assert (n = n0) as -> by congruence.
  pose proof (platform_records_bare _ _ _ Hloop (Forall_nil_2 _)) as Hbare.
  by apply (proj1 (Forall_lookup _ _) Hbare i n0).
Qed.

Lemma earlier_duplicate_node_gets_no_component_witness :
  NodePowerData.attrs node_1_first = ∅.
Proof.
  apply (earlier_duplicate_node_gets_no_component twice_node_1
           [node_1_first; node_1_second] [(INFO, NodeCollectionCompleted 2)]
           0%nat 1%nat node_1_first node_1_second).
  - vm_compute. reflexivity.
  - lia.
  - reflexivity.
  - reflexivity.
  - reflexivity.
Defined.

(** The pass over [twice_node_1]: the cpu value 7 is on the second record
    only. *)
Example twice_node_1_returns :
  get_node_power_metrics twice_node_1
  = (Return [node_1_first; node_1_second], [(INFO, NodeCollectionCompleted 2)]).
Proof. vm_compute. reflexivity. Qed.

(** The component values of a node pass are never invented, and never
    cross from one node to another: every attribute of a returned record is
    the attribute of one of the four components, and its value is the value
    of a usable series, for the node of the record, that the query of that
    component was answered with. *)
Theorem node_components_come_from_series b nodes' lg n a v :
  get_node_power_metrics b = (Return nodes', lg) →
  n ∈ nodes' →
  NodePowerData.attrs n !! a = Some v →
  component_source b (NodePowerData.node_name n) a v.
Proof.
  intros (rs & nodes & lg' & Hf & Hloop & Henrich)%node_pass_returns Hn Ha.
  unfold _enrich_node_metrics in Henrich.
  set (node_map := index_nodes 0 nodes ∅) in *.
  pose proof (platform_records_bare _ _ _ Hloop (Forall_nil_2 _)) as Hbare.
  destruct (enrich_loop_invariant
              (λ l, ∀ i n1, l !! i = Some n1 →
                 (∃ n0, nodes !! i = Some n0 ∧
                        NodePowerData.node_name n1 = NodePowerData.node_name n0) ∧
                 ∀ a v, NodePowerData.attrs n1 !! a = Some v →
                        component_source b (NodePowerData.node_name n1) a v)
              b node_map component_queries nodes)
    as (nodes2 & lg2 & Hrun & Hinv).
  - intros i n1 Hn1. split; [eauto|].
    intros a' v'. rewrite (proj1 (Forall_lookup _ _) Hbare i n1 Hn1).
    by rewrite lookup_empty.
  - intros c q rs' s l1 l2 Hq Hrs Hs Hl1
           [->|(Hu & i' & v' & Hi' & Hv' & ->)]%set_component_unfold; [done|].
    intros i n1. rewrite list_lookup_alter.
    destruct (decide (i' = i)) as [->|Hne]; [|apply Hl1].
    destruct (l1 !! i) as [n2|] eqn:Hn2; [|done]. cbn. intros [= <-].
    destruct (Hl1 i n2 Hn2) as [(n0 & Hn0 & Hname) Hsrc].
    split; [by exists n0|]. cbn. intros a' v''.
    destruct (decide (power_attr c = a')) as [<-|Hne].
    + rewrite lookup_insert_eq. intros [= <-].
      exists c, q, rs', s. split_and!; try done.
      destruct (index_nodes_last _ _ _ Hi') as (n0' & Hn0' & Hname0 & _).
      congruence.
    + rewrite lookup_insert_ne by done. apply Hsrc.
  - assert (nodes2 = nodes') as -> by congruence.
    apply list_elem_of_lookup in Hn as [i Hi].
    by apply (Hinv i n Hi).
Qed.

Lemma node_components_come_from_series_witness :
  component_source twice_node_1 (NodePowerData.node_name node_1_second)
    "cpu_power_joules" 7%float.
Proof.
  apply (node_components_come_from_series twice_node_1
           [node_1_first; node_1_second] [(INFO, NodeCollectionCompleted 2)]
           node_1_second).
  - vm_compute. reflexivity.
  - right. left.
  - vm_compute. reflexivity.
Defined.

(** ** Further properties: the client object and its session *)

Lemma rstrip_slash_empty s :
  rstrip_slash s = EmptyString → ∃ n, s = slashes n.
Proof.
  induction s as [|a s IH]; cbn; [by exists 0%nat|].
  destruct (rstrip_slash s) as [|c r]; [|done].
  case_bool_decide as Ha; [|done]. intros _.
  destruct (IH eq_refl) as [n ->]. exists (S n). by rewrite Ha.
Qed.

(** The base URL the client keeps never ends with a slash, differs from the
    argument by slashes at the end only, and is left alone when stripped
    again. *)
Theorem rstrip_slash_strips_trailing_slashes s :
  endswith (rstrip_slash s) "/" = false ∧
  (∃ n, s = rstrip_slash s +:+ slashes n) ∧
  rstrip_slash (rstrip_slash s) = rstrip_slash s.
Proof.
  induction s as [|a s (Hend & [n Hn] & Hidem)]; [by split_and!; [|exists 0%nat|]|].
  cbn [rstrip_slash].
  destruct (rstrip_slash s) as [|c r] eqn:Hr.
  - destruct (rstrip_slash_empty s Hr) as [k ->].
    case_bool_decide as Ha.
    + subst a. split_and!; [done| |done]. by exists (S k).
    + split_and!.
      * cbn. by apply bool_decide_eq_false_2.
      * by exists k.
      * cbn. by rewrite bool_decide_eq_false_2.
  - split_and!.
    + exact Hend.
    + exists n. exact (f_equal (String a) Hn).
    + change (rstrip_slash (String a (String c r))) with
        (match rstrip_slash (String c r) with
         | EmptyString =>
             if bool_decide (a = "/"%char) then EmptyString
             else String a EmptyString
         | r' => String a r'
         end).
      by rewrite Hidem.
Qed.

Lemma session_invariant_step st c :
  session_invariant st →
  session_invariant (KeplerClient.step st c) ∧
  KeplerClient.prometheus_url (KeplerClient.self (KeplerClient.step st c))
  = KeplerClient.prometheus_url (KeplerClient.self st).
Proof.
  unfold session_invariant.
  destruct st as [[url interval [s|]] n]; destruct c; cbn; intros [-> Hs];
    split_and!; try done; intros ? [= <-]; done.
Qed.

(** Whatever a user does with a client (entering and leaving its context,
    closing it, calling its methods, in any order), at most one HTTP
    session is open at any time, it is the one the client holds, with a
    pool of 10 connections and a timeout of 30 seconds, and closing the
    client leaves no session open; the base URL stays the stripped one. *)
Theorem session_is_never_leaked url interval calls :
  let st := KeplerClient.run calls (KeplerClient.__init__ url interval) in
  KeplerClient.open_sessions st = held_sessions st ∧
  (KeplerClient.open_sessions st ≤ 1)%nat ∧
  (∀ s, KeplerClient.session (KeplerClient.self st) = Some s →
        KeplerClient.limit s = 10 ∧ KeplerClient.total s = 30) ∧
  KeplerClient.open_sessions (KeplerClient.close st) = 0%nat ∧
  KeplerClient.session (KeplerClient.self (KeplerClient.close st)) = None ∧
  KeplerClient.prometheus_url (KeplerClient.self st) = rstrip_slash url.
Proof.
  cbn zeta. unfold KeplerClient.run.
  assert (∀ st,
    session_invariant st →
    session_invariant (fold_left KeplerClient.step calls st) ∧
    KeplerClient.prometheus_url
      (KeplerClient.self (fold_left KeplerClient.step calls st))
    = KeplerClient.prometheus_url (KeplerClient.self st)) as Hrun.
  { induction calls as [|c calls IH]; intros st Hst; cbn [fold_left]; [done|].
    destruct (session_invariant_step st c Hst) as [H1 H2].
    destruct (IH _ H1) as [H3 H4]. split; [done|]. congruence. }
  destruct (Hrun (KeplerClient.__init__ url interval)) as [[Hinv Hcfg] Hurl].
  { split; [done|]. intros s [=]. }
  destruct (fold_left KeplerClient.step calls _) as [[u i [s|]] n];
    cbn in *; subst; split_and!; try done; try lia.
  intros s' [= <-]. by rewrite (Hcfg s eq_refl).
Qed.

(** ** Further properties: the workload summary *)




Example two_pods_summary :
  ∃ sm lg,
    get_workload_power_summary py_sum two_pods_backend "web"
    = (Return sm, lg) ∧
    WorkloadSummary.container_count sm = 2%nat ∧
    WorkloadSummary.total_power_joules sm = 14%float.
Proof. eexists _, _. repeat split; vm_compute; reflexivity. Qed.

(** ** Further properties: the endpoints *)



Lemma health_check_returns b :
  ∃ report lg, health_check b = (Return report, lg) ∧
    (liveness_ok b && data_present b = false → status report = "unhealthy").
Proof.
  rewrite health_check_unfold. unfold liveness_ok, data_present.
  destruct (healthy b) as [e|st body]; [by eexists _, _|].
  destruct (fetch b liveness_query) as [[|s rs]|e];
    (eexists _, _; split; [reflexivity|]); cbn;
    destruct (bool_decide (st = 200)); cbn; intros; first [done|discriminate].
Qed.

(** GET [/health] answers "healthy" at the top whenever the database check
    returns, whatever the state of the metrics backend, whose own report,
    healthy or not, is only passed along; the endpoint answers 503 exactly
    when the database check raises. *)
Theorem health_endpoint_ignores_the_kepler_report {D} b (database : result D) :
  match database with
  | Return db_status =>
      ∃ report lg,
        Main.health_check b database
        = (Main.OK (Main.mkHealth "healthy" report db_status), lg) ∧
        (health_check b).1 = Return report ∧
        (liveness_ok b && data_present b = false →
         status report = "unhealthy")
  | Raise e =>
      ∃ lg, Main.health_check b database
            = (Main.HTTPException 503 (Main.HealthCheckFailedDetail e), lg)
  end.
Proof.
  destruct (health_check_returns b) as (report & lg & Hk & Hun).
  unfold Main.health_check. rewrite Hk. cbn [fst snd].
  destruct database as [d|e]; eauto 6.
Qed.

Example unreachable_backend_is_reported_healthy :
  ∃ report lg,
    Main.health_check unreachable (Return tt)
    = (Main.OK (Main.mkHealth "healthy" report tt), lg) ∧
    status report = "unhealthy".
Proof. eexists _, _. split; vm_compute; reflexivity. Qed.




(** GET [/power/containers] answers 500 as soon as one of the five queries
    of the pass fails. *)
Theorem containers_endpoint_fails_with_one_query b namespace limit q e :
  q ∈ queries →
  fetch b (namespaced q.2 namespace) = Raise e →
  ∃ e' lg,
    Main.get_container_power b namespace limit
    = (Main.HTTPException 500 (Main.ContainerPowerDataQueryFailed e'), lg).
Proof.
  intros Hin Hf. unfold Main.get_container_power.
  rewrite get_all_container_metrics_unfold. cbn zeta.
  destruct (for_io_collect_raises b namespace queries q e [] Hin Hf)
    as (e' & lg & ->).
  cbn. eauto.
Qed.

Lemma containers_endpoint_fails_with_one_query_witness :
  ∃ e' lg,
    Main.get_container_power cpu_query_down None 100
    = (Main.HTTPException 500 (Main.ContainerPowerDataQueryFailed e'), lg).
Proof.
  apply (containers_endpoint_fails_with_one_query cpu_query_down None 100
           ("cpu", "kepler_container_cpu_joules_total")
           (ClientResponseError 500)).
  - right. left.
  - reflexivity.
Defined.
